(** * The streaming query view (views/aidata/query/index.vue)

    A shallow embedding of the script block of the chat-style query view:
    the reactive refs of the component, the two user actions ([handleSend],
    [handleClear]), the registry loader ([loadConnections]) and the two
    callbacks installed on every [EventSource] ([onmessage], [onerror]).

    Conventions.
    - A JavaScript string is the list of its UTF-16 code units; literals are
      written as text and decoded by [js].
    - Every [EventSource] object ever constructed lives in [heap]; a handle
      is its index there.  The closure variable [aiContent] captured by the
      callbacks of one [EventSource] is stored next to it.
    - Calls that leave the component (notifications, console, constructing
      and closing an [EventSource]) are recorded, in order, in [effects].
    - What the runtime decides (generated ids, clock, whether the
      [EventSource] constructor throws, JSON parsing, string coercion) is an
      input of the model. *)

From Stdlib Require Import ZArith NArith List Bool Lia Ascii String.
From Stdlib Require Import DecimalString.
From stdpp Require Import base option list gmap.
Import ListNotations.

Local Open Scope nat_scope.

(** ** JavaScript strings *)

Abbreviation jsstring := (list N).

(** Decoding of a UTF-8 byte sequence into UTF-16 code units; only used to
    write the literals of the source as text. *)
Fixpoint utf16_of_utf8 (bs : list N) : jsstring :=
  match bs with
  | [] => []
  | b0 :: t0 =>
    if (b0 <? 0x80)%N then b0 :: utf16_of_utf8 t0
    else if (b0 <? 0xE0)%N then
      match t0 with
      | b1 :: t1 =>
        ((b0 mod 0x20) * 0x40 + b1 mod 0x40)%N :: utf16_of_utf8 t1
      | _ => []
      end
    else if (b0 <? 0xF0)%N then
      match t0 with
      | b1 :: b2 :: t2 =>
        ((b0 mod 0x10) * 0x1000 + (b1 mod 0x40) * 0x40 + b2 mod 0x40)%N
          :: utf16_of_utf8 t2
      | _ => []
      end
    else
      match t0 with
      | b1 :: b2 :: b3 :: t3 =>
        let cp := ((b0 mod 0x08) * 0x40000 + (b1 mod 0x40) * 0x1000
                   + (b2 mod 0x40) * 0x40 + b3 mod 0x40)%N in
        let v := (cp - 0x10000)%N in
        (0xD800 + v / 0x400)%N :: (0xDC00 + v mod 0x400)%N :: utf16_of_utf8 t3
      | _ => []
      end
  end.

Definition js (s : string) : jsstring :=
  utf16_of_utf8 (List.map N_of_ascii (list_ascii_of_string s)).

(** [WhiteSpace] and [LineTerminator] code units, as stripped by
    [String.prototype.trim]. *)
Definition isWhiteSpace (c : N) : bool :=
  ((0x09 <=? c) && (c <=? 0x0D) || (c =? 0x20) || (c =? 0xA0)
   || (c =? 0x1680) || (0x2000 <=? c) && (c <=? 0x200A)
   || (c =? 0x2028) || (c =? 0x2029) || (c =? 0x202F) || (c =? 0x205F)
   || (c =? 0x3000) || (c =? 0xFEFF))%N.

Fixpoint trimStart (s : jsstring) : jsstring :=
  match s with
  | [] => []
  | c :: t => if isWhiteSpace c then trimStart t else s
  end.

Definition trim (s : jsstring) : jsstring :=
  rev (trimStart (rev (trimStart s))).

(** ToBoolean of a string: the empty string is the only falsy one. *)
Definition str_truthy (s : jsstring) : bool :=
  match s with [] => false | _ => true end.

(** [a === b] on strings. *)
Fixpoint jsstring_eqb (a b : jsstring) : bool :=
  match a, b with
  | [], [] => true
  | x :: a', y :: b' => (x =? y)%N && jsstring_eqb a' b'
  | _, _ => false
  end.

(** ToBoolean of a [number | null] holding an integer. *)
Definition id_truthy (v : option Z) : bool :=
  match v with
  | None => false
  | Some n => negb (n =? 0)%Z
  end.

(** ** Data model *)

Inductive Role := user | assistant.

Definition is_assistant (r : Role) : bool :=
  match r with assistant => true | user => false end.

Module ChatMessage.
Record t := mk {
  id : jsstring;
  type : Role;
  content : jsstring;
  timestamp : Z;
  loading : option bool;          (* loading?: boolean *)
  error : option jsstring;        (* error?: string *)
}.
End ChatMessage.

Module ConnSourceDTO.
Record t := mk {
  id : Z;
  name : jsstring;
  conn_type : jsstring;
  host : jsstring;
  port : Z;
  username : jsstring;
  password_encrypted : jsstring;
  db_name : jsstring;
  status : Z;
  description : option jsstring;
  created_time : option jsstring;
  updated_time : option jsstring;
}.
End ConnSourceDTO.

(** The template literal of [sseUrl], kept as its interpolated parts. *)
Record SseUrl := {
  url_apiBase : jsstring;
  url_query : jsstring;               (* encodeURIComponent(currentQuery) *)
  url_connection_id : option Z;       (* selectedConnectionId.value *)
  url_session_id : jsstring;          (* currentSessionId.value *)
}.

(** An [EventSource] object together with the [aiContent] variable its
    callbacks close over. *)
Record EventSource := {
  url : SseUrl;
  closed : bool;                      (* readyState === CLOSED *)
  aiContent : jsstring;
}.

Inductive Effect :=
| message_warning (text : jsstring)
| message_error (text : jsstring)
| console_error (label : jsstring)
| es_new (h : nat)                    (* new EventSource(sseUrl) returned h *)
| es_close (h : nat)                  (* h.close() *)
| uncaught (label : jsstring).        (* exception leaving the handler *)

(** The refs of the component, the [EventSource] objects and the calls
    made so far. *)
Record State := {
  query : jsstring;
  loading : bool;
  messages : list ChatMessage.t;
  connections : list ConnSourceDTO.t;
  selectedConnectionId : option Z;
  eventSource : option nat;
  currentSessionId : jsstring;
  heap : list EventSource;
  effects : list Effect;
}.

Definition init : State :=
  {| query := []; loading := false; messages := []; connections := [];
     selectedConnectionId := None; eventSource := None;
     currentSessionId := []; heap := []; effects := [] |}.

Definition set_query (v : jsstring) (s : State) : State :=
  {| query := v; loading := loading s; messages := messages s;
     connections := connections s;
     selectedConnectionId := selectedConnectionId s;
     eventSource := eventSource s; currentSessionId := currentSessionId s;
     heap := heap s; effects := effects s |}.

Definition set_loading (v : bool) (s : State) : State :=
  {| query := query s; loading := v; messages := messages s;
     connections := connections s;
     selectedConnectionId := selectedConnectionId s;
     eventSource := eventSource s; currentSessionId := currentSessionId s;
     heap := heap s; effects := effects s |}.

Definition set_messages (v : list ChatMessage.t) (s : State) : State :=
  {| query := query s; loading := loading s; messages := v;
     connections := connections s;
     selectedConnectionId := selectedConnectionId s;
     eventSource := eventSource s; currentSessionId := currentSessionId s;
     heap := heap s; effects := effects s |}.

Definition set_connections (v : list ConnSourceDTO.t) (s : State) : State :=
  {| query := query s; loading := loading s; messages := messages s;
     connections := v;
     selectedConnectionId := selectedConnectionId s;
     eventSource := eventSource s; currentSessionId := currentSessionId s;
     heap := heap s; effects := effects s |}.

Definition set_selectedConnectionId (v : option Z) (s : State) : State :=
  {| query := query s; loading := loading s; messages := messages s;
     connections := connections s;
     selectedConnectionId := v;
     eventSource := eventSource s; currentSessionId := currentSessionId s;
     heap := heap s; effects := effects s |}.

Definition set_eventSource (v : option nat) (s : State) : State :=
  {| query := query s; loading := loading s; messages := messages s;
     connections := connections s;
     selectedConnectionId := selectedConnectionId s;
     eventSource := v; currentSessionId := currentSessionId s;
     heap := heap s; effects := effects s |}.

Definition set_currentSessionId (v : jsstring) (s : State) : State :=
  {| query := query s; loading := loading s; messages := messages s;
     connections := connections s;
     selectedConnectionId := selectedConnectionId s;
     eventSource := eventSource s; currentSessionId := v;
     heap := heap s; effects := effects s |}.

Definition set_heap (v : list EventSource) (s : State) : State :=
  {| query := query s; loading := loading s; messages := messages s;
     connections := connections s;
     selectedConnectionId := selectedConnectionId s;
     eventSource := eventSource s; currentSessionId := currentSessionId s;
     heap := v; effects := effects s |}.

(** A call that leaves the component. *)
Definition emit (e : Effect) (s : State) : State :=
  {| query := query s; loading := loading s; messages := messages s;
     connections := connections s;
     selectedConnectionId := selectedConnectionId s;
     eventSource := eventSource s; currentSessionId := currentSessionId s;
     heap := heap s; effects := effects s ++ [e] |}.

(** ** Literals of the source *)

Definition MSG_EMPTY_QUERY : jsstring := js "请输入问题".
Definition MSG_NO_CONNECTION : jsstring := js "请先选择数据源".
Definition MSG_CONNECT_FAILED : jsstring := js "连接失败，请稍后重试".
Definition MSG_SEND_FAILED : jsstring := js "发送请求失败".
Definition MSG_LOAD_FAILED : jsstring := js "加载数据源失败".
Definition LOG_PARSE_FAILED : jsstring := js "解析SSE消息失败:".
Definition LOG_SSE_ERROR : jsstring := js "SSE连接错误:".
Definition LOG_SEND_FAILED : jsstring := js "发送请求失败:".
Definition LOG_LOAD_FAILED : jsstring := js "加载数据源失败:".
Definition DEFAULT_API_BASE : jsstring := js "http://localhost:8000".
Definition FINAL_RESULT : jsstring := js "final_result".
Definition KEY_CONTENT : jsstring := js "content".
Definition KEY_IS_FINAL : jsstring := js "is_final".
Definition URI_ERROR : jsstring := js "URIError".

Arguments js : simpl never.
Arguments MSG_EMPTY_QUERY : simpl never.
Arguments MSG_NO_CONNECTION : simpl never.
Arguments MSG_CONNECT_FAILED : simpl never.
Arguments MSG_SEND_FAILED : simpl never.
Arguments MSG_LOAD_FAILED : simpl never.
Arguments LOG_PARSE_FAILED : simpl never.
Arguments LOG_SSE_ERROR : simpl never.
Arguments LOG_SEND_FAILED : simpl never.
Arguments LOG_LOAD_FAILED : simpl never.
Arguments DEFAULT_API_BASE : simpl never.
Arguments FINAL_RESULT : simpl never.
Arguments KEY_CONTENT : simpl never.
Arguments KEY_IS_FINAL : simpl never.
Arguments URI_ERROR : simpl never.

(** ** Transcript helpers *)

(** [messages.value.push(m)] *)
Definition push (m : ChatMessage.t) (s : State) : State :=
  set_messages (messages s ++ [m]) s.

(** [messages.value[messages.value.length - 1]]: [undefined] on an empty
    array (index [-1]). *)
Definition lastMessage (s : State) : option ChatMessage.t :=
  last (messages s).

Fixpoint map_last {A} (f : A -> A) (l : list A) : list A :=
  match l with
  | [] => []
  | [x] => [f x]
  | x :: t => x :: map_last f t
  end.

(** The recurring block
    [const lastAiMessage = messages.value[messages.value.length - 1];
     if (lastAiMessage && lastAiMessage.type === 'assistant') { ... }]
    where the body assigns fields of [lastAiMessage] in place. *)
Definition withLastAiMessage (f : ChatMessage.t -> ChatMessage.t)
    (s : State) : State :=
  match lastMessage s with
  | Some lastAiMessage =>
    if is_assistant (ChatMessage.type lastAiMessage)
    then set_messages (map_last f (messages s)) s
    else s
  | None => s
  end.

Definition set_msg_content (v : jsstring) (m : ChatMessage.t) :=
  ChatMessage.mk (ChatMessage.id m) (ChatMessage.type m) v
    (ChatMessage.timestamp m) (ChatMessage.loading m) (ChatMessage.error m).

Definition set_msg_loading (v : bool) (m : ChatMessage.t) :=
  ChatMessage.mk (ChatMessage.id m) (ChatMessage.type m)
    (ChatMessage.content m) (ChatMessage.timestamp m) (Some v)
    (ChatMessage.error m).

Definition set_msg_error (v : jsstring) (m : ChatMessage.t) :=
  ChatMessage.mk (ChatMessage.id m) (ChatMessage.type m)
    (ChatMessage.content m) (ChatMessage.timestamp m)
    (ChatMessage.loading m) (Some v).

(** ** EventSource objects *)

Definition mark_closed (o : EventSource) : EventSource :=
  {| url := url o; closed := true; aiContent := aiContent o |}.

Definition set_aiContent (v : jsstring) (o : EventSource) : EventSource :=
  {| url := url o; closed := closed o; aiContent := v |}.

(** [h.close()] *)
Definition close (h : nat) (s : State) : State :=
  emit (es_close h) (set_heap (alter mark_closed h (heap s)) s).

(** The channel [h] exists and its [readyState] is not [CLOSED]. *)
Definition is_open (h : nat) (s : State) : bool :=
  match heap s !! h with
  | Some o => negb (closed o)
  | None => false
  end.

(** [if (eventSource.value) { eventSource.value.close(); }] *)
Definition closeCurrent (s : State) : State :=
  match eventSource s with
  | Some h => close h s
  | None => s
  end.

(** ** handleClear (lines 167-174) *)
Definition handleClear (s : State) : State :=
  let s := set_messages [] s in
  let s :=
    match eventSource s with
    | Some h => set_eventSource None (close h s)
    | None => s
    end in
  set_loading false s.

(** ** onUnmounted (lines 177-181) *)
Definition onUnmounted (s : State) : State := closeCurrent s.

(** ** loadConnections (lines 30-41)

    [res] is the outcome of [await getConnSourcesApi()]: the [items] of the
    page, or [None] when the request rejects. *)
Definition loadConnections (res : option (list ConnSourceDTO.t))
    (s : State) : State :=
  match res with
  | Some items =>
    let s :=
      set_connections
        (List.filter (fun c => (ConnSourceDTO.status c =? 1)%Z) items) s in
    match connections s with
    | c0 :: _ =>
      if negb (id_truthy (selectedConnectionId s))
      then set_selectedConnectionId (Some (ConnSourceDTO.id c0)) s
      else s
    | [] => s
    end
  | None =>
    emit (message_error MSG_LOAD_FAILED)
      (emit (console_error LOG_LOAD_FAILED) s)
  end.

(** ** es.onerror (lines 131-144) *)
Definition onerror (es : nat) (s : State) : State :=
  let s := emit (console_error LOG_SSE_ERROR) s in
  let s := close es s in
  let s := set_eventSource None s in
  let s := set_loading false s in
  let s :=
    withLastAiMessage
      (fun m => set_msg_error MSG_CONNECT_FAILED (set_msg_loading false m))
      s in
  emit (message_error MSG_CONNECT_FAILED) s.

(** ** encodeURIComponent

    The UTF-8 bytes of the string, percent-escaped except for the
    unreserved marks; [None] is the URIError thrown on a lone surrogate. *)
Definition uriUnreserved (c : N) : bool :=
  ((0x41 <=? c) && (c <=? 0x5A) || (0x61 <=? c) && (c <=? 0x7A)
   || (0x30 <=? c) && (c <=? 0x39)
   || (c =? 0x2D) || (c =? 0x5F) || (c =? 0x2E) || (c =? 0x21)
   || (c =? 0x7E) || (c =? 0x2A) || (c =? 0x27) || (c =? 0x28)
   || (c =? 0x29))%N.

Definition hexDigit (d : N) : N :=
  (if d <? 10 then 0x30 + d else 0x41 + (d - 10))%N.

Definition percent (byte : N) : jsstring :=
  [0x25%N; hexDigit (byte / 16); hexDigit (byte mod 16)].

Definition utf8_of_code_point (cp : N) : list N :=
  (if cp <? 0x80 then [cp]
   else if cp <? 0x800 then [0xC0 + cp / 0x40; 0x80 + cp mod 0x40]
   else if cp <? 0x10000 then
     [0xE0 + cp / 0x1000; 0x80 + (cp / 0x40) mod 0x40; 0x80 + cp mod 0x40]
   else
     [0xF0 + cp / 0x40000; 0x80 + (cp / 0x1000) mod 0x40;
      0x80 + (cp / 0x40) mod 0x40; 0x80 + cp mod 0x40])%N.

Definition isLeadSurrogate (c : N) : bool :=
  ((0xD800 <=? c) && (c <=? 0xDBFF))%N.

Definition isTrailSurrogate (c : N) : bool :=
  ((0xDC00 <=? c) && (c <=? 0xDFFF))%N.

Fixpoint encodeURIComponent (s : jsstring) : option jsstring :=
  match s with
  | [] => Some []
  | c :: t =>
    if uriUnreserved c then (fun r => c :: r) <$> encodeURIComponent t
    else if isTrailSurrogate c then None
    else if isLeadSurrogate c then
      match t with
      | c2 :: t2 =>
        if isTrailSurrogate c2 then
          let cp := ((c - 0xD800) * 0x400 + (c2 - 0xDC00) + 0x10000)%N in
          (fun r => concat (List.map percent (utf8_of_code_point cp)) ++ r)
            <$> encodeURIComponent t2
        else None
      | [] => None
      end
    else
      (fun r => concat (List.map percent (utf8_of_code_point c)) ++ r)
        <$> encodeURIComponent t
  end.

(** ** Parsed payloads and the runtime *)

(** A value produced by [JSON.parse], over the runtime's numbers.  An
    object is the list of its own properties, each key once. *)
#[warnings="-register-all"]
Inductive JSValue (number : Type) :=
| JNull
| JBool (b : bool)
| JNum (n : number)
| JStr (s : jsstring)
| JArr (xs : list (JSValue number))
| JObj (props : list (jsstring * JSValue number)).

Arguments JNull {number}.
Arguments JBool {number} b.
Arguments JNum {number} n.
Arguments JStr {number} s.
Arguments JArr {number} xs.
Arguments JObj {number} props.

(** What the handlers use of the JavaScript runtime. *)
Class Runtime := {
  (** numbers, observed only through ToBoolean *)
  JSNumber : Type;
  Number_truthy : JSNumber -> bool;
  (** [JSON.parse]: [None] when it throws a SyntaxError *)
  JSON_parse : jsstring -> option (JSValue JSNumber);
  (** ToString(ToPrimitive(v)) of a value that is not a string: [None]
      when the coercion throws a TypeError *)
  ToString : JSValue JSNumber -> option jsstring;
}.

(** The state in which a block ends, normally or by a throw. *)
Inductive Completion :=
| Normal (s : State)
| Throw (s : State).

Definition andThen (c : Completion) (k : State -> Completion)
    : Completion :=
  match c with
  | Normal s => k s
  | Throw s => Throw s
  end.

(** The server-sent event handed to [onmessage]. *)
Record MessageEvent := {
  ev_type : jsstring;                 (* event.type *)
  data : jsstring;                    (* event.data *)
}.

(** [aiContent] as seen by the callbacks of [es]. *)
Definition aiContent_of (es : nat) (s : State) : jsstring :=
  match heap s !! es with
  | Some o => aiContent o
  | None => []
  end.

Section Handlers.
Context {RT : Runtime}.

Fixpoint assoc (key : jsstring) (props : list (jsstring * JSValue JSNumber))
    : option (JSValue JSNumber) :=
  match props with
  | [] => None
  | (k, v) :: rest => if jsstring_eqb k key then Some v else assoc key rest
  end.

(** [data.key] for the keys [content] and [is_final], which no built-in
    prototype defines: a TypeError on [null] (outer [None]), [undefined]
    (inner [None]) on a primitive, on an array and on an object without
    the property. *)
Definition Get (d : JSValue JSNumber) (key : jsstring)
    : option (option (JSValue JSNumber)) :=
  match d with
  | JNull => None
  | JObj props => Some (assoc key props)
  | _ => Some None
  end.

(** ToBoolean; [None] stands for [undefined]. *)
Definition truthy (v : option (JSValue JSNumber)) : bool :=
  match v with
  | None => false
  | Some JNull => false
  | Some (JBool b) => b
  | Some (JNum n) => Number_truthy n
  | Some (JStr s) => str_truthy s
  | Some (JArr _) => true
  | Some (JObj _) => true
  end.

(** [acc + v] with a string on the left. *)
Definition js_add (acc : jsstring) (v : JSValue JSNumber)
    : option jsstring :=
  match v with
  | JStr s => Some (acc ++ s)
  | _ => (fun t => acc ++ t) <$> ToString v
  end.

(** [data.is_final] where [data] is known not to be [null]. *)
Definition is_final (d : JSValue JSNumber) : option (JSValue JSNumber) :=
  match Get d KEY_IS_FINAL with
  | Some v => v
  | None => None
  end.

(** Lines 104-112. *)
Definition onmessage_content (es : nat) (d : JSValue JSNumber)
    (content : option (JSValue JSNumber)) (s : State) : Completion :=
  match content with
  | Some c =>
    if truthy (Some c) then
      match js_add (aiContent_of es s) c with
      | None => Throw s
      | Some acc =>
        let s := set_heap (alter (set_aiContent acc) es (heap s)) s in
        Normal
          (withLastAiMessage
             (fun m =>
                set_msg_loading (negb (truthy (is_final d)))
                  (set_msg_content acc m))
             s)
      end
    else Normal s
  | None => Normal s
  end.

(** Lines 115-124. *)
Definition onmessage_final (es : nat) (event : MessageEvent)
    (d : JSValue JSNumber) (s : State) : State :=
  if truthy (is_final d) || jsstring_eqb (ev_type event) FINAL_RESULT
  then
    let s := close es s in
    let s := set_eventSource None s in
    let s := set_loading false s in
    withLastAiMessage (set_msg_loading false) s
  else s.

(** The [try] block of [es.onmessage] (lines 102-124). *)
Definition onmessage_try (es : nat) (event : MessageEvent) (s : State)
    : Completion :=
  match JSON_parse (data event) with
  | None => Throw s
  | Some d =>
    match Get d KEY_CONTENT with
    | None => Throw s
    | Some content =>
      andThen (onmessage_content es d content s)
        (fun s => Normal (onmessage_final es event d s))
    end
  end.

(** ** es.onmessage (lines 100-128) *)
Definition onmessage (es : nat) (event : MessageEvent) (s : State)
    : State :=
  match onmessage_try es event s with
  | Normal s' => s'
  | Throw s' => emit (console_error LOG_PARSE_FAILED) s'
  end.

End Handlers.

(** ** handleSend (lines 44-156) *)

(** What the runtime supplies to one call of [handleSend]. *)
Record SendEnv := {
  user_id : jsstring;                 (* generateId() of line 59 *)
  user_ts : Z;                        (* new Date() of line 62 *)
  ai_id : jsstring;                   (* generateId() of line 68 *)
  ai_ts : Z;                          (* new Date() of line 71 *)
  session_id : jsstring;              (* generateId() of line 81 *)
  VITE_API_URL : option jsstring;     (* import.meta.env.VITE_API_URL *)
  EventSource_ok : bool;              (* new EventSource(sseUrl) returns *)
}.

Definition userMessage (env : SendEnv) (s : State) : ChatMessage.t :=
  ChatMessage.mk (user_id env) user (trim (query s)) (user_ts env)
    None None.

Definition aiMessage (env : SendEnv) : ChatMessage.t :=
  ChatMessage.mk (ai_id env) assistant [] (ai_ts env) (Some true) None.

(** Lines 57-81: the two turns, the input reset, the loading flag and the
    new session id. *)
Definition handleSend_enqueue (env : SendEnv) (s : State) : State :=
  let s := push (userMessage env s) s in
  let s := push (aiMessage env) s in
  let s := set_query [] s in
  let s := set_loading true s in
  set_currentSessionId (session_id env) s.

Definition apiBase (env : SendEnv) : jsstring :=
  match VITE_API_URL env with
  | Some u => if str_truthy u then u else DEFAULT_API_BASE
  | None => DEFAULT_API_BASE
  end.

(** [new EventSource(sseUrl)] when it returns; the new handle is the
    length of the heap before the call. *)
Definition newEventSource (sseUrl : SseUrl) (s : State) : State :=
  emit (es_new (length (heap s)))
    (set_heap
       (heap s ++ [{| url := sseUrl; closed := false; aiContent := [] |}])
       s).

(** Lines 87-155: the [try] block that replaces the channel, and its
    [catch]. *)
Definition handleSend_connect (env : SendEnv) (sseUrl : SseUrl)
    (s : State) : State :=
  let s := closeCurrent s in
  if EventSource_ok env then
    let es := length (heap s) in
    let s := newEventSource sseUrl s in
    set_eventSource (Some es) s
  else
    let s := emit (console_error LOG_SEND_FAILED) s in
    let s := set_loading false s in
    let s := emit (message_error MSG_SEND_FAILED) s in
    withLastAiMessage
      (fun m => set_msg_error MSG_SEND_FAILED (set_msg_loading false m)) s.

Definition handleSend (env : SendEnv) (s : State) : State :=
  if negb (str_truthy (trim (query s))) then
    emit (message_warning MSG_EMPTY_QUERY) s
  else if negb (id_truthy (selectedConnectionId s)) then
    emit (message_warning MSG_NO_CONNECTION) s
  else if loading s then s
  else
    let currentQuery := trim (query s) in
    let s := handleSend_enqueue env s in
    match encodeURIComponent currentQuery with
    | None => emit (uncaught URI_ERROR) s
    | Some q =>
      handleSend_connect env
        {| url_apiBase := apiBase env; url_query := q;
           url_connection_id := selectedConnectionId s;
           url_session_id := currentSessionId s |}
        s
    end.

(** ** The view as a transition system

    What can happen to a mounted view.  An [EventSource] dispatches events
    only while its [readyState] is not [CLOSED], so [Message] and [Error]
    are enabled for open channels only.  A browser hands to [onmessage]
    the events of type [message]; the system lets the handler run on an
    event of any type, which only adds behaviours. *)
Inductive Action :=
| Input (text : jsstring)                       (* v-model:value="query" *)
| Send (env : SendEnv)                          (* click or Enter *)
| Clear                                         (* the clear button *)
| Select (v : Z)                                (* v-model + @change *)
| Loaded (res : option (list ConnSourceDTO.t))  (* onMounted *)
| Message (es : nat) (event : MessageEvent)
| Error (es : nat)
| Unmount.

Section System.
Context {RT : Runtime}.

Definition step (a : Action) (s : State) : option State :=
  match a with
  | Input text => Some (set_query text s)
  | Send env => Some (handleSend env s)
  | Clear => Some (handleClear s)
  | Select v => Some (handleClear (set_selectedConnectionId (Some v) s))
  | Loaded res => Some (loadConnections res s)
  | Message es event =>
    if is_open es s then Some (onmessage es event s) else None
  | Error es => if is_open es s then Some (onerror es s) else None
  | Unmount => Some (onUnmounted s)
  end.

Fixpoint run (acts : list Action) (s : State) : option State :=
  match acts with
  | [] => Some s
  | a :: rest =>
    match step a s with
    | Some s' => run rest s'
    | None => None
    end
  end.

End System.

(** ** A runtime for the worked examples

    Integers for numbers, and a parser that knows the payloads of the
    examples below and rejects every other text. *)

Definition quoted (s : jsstring) : jsstring := [0x22%N] ++ s ++ [0x22%N].

(** The text [{"content":"t"}]. *)
Definition payload_content (t : jsstring) : jsstring :=
  js "{" ++ quoted KEY_CONTENT ++ js ":" ++ quoted t ++ js "}".

(** The text [{"is_final":true}]. *)
Definition payload_final : jsstring :=
  js "{" ++ quoted KEY_IS_FINAL ++ js ":true}".

(** The text [{"is_final":false}]. *)
Definition payload_not_final : jsstring :=
  js "{" ++ quoted KEY_IS_FINAL ++ js ":false}".

Definition example_parse (text : jsstring) : option (JSValue Z) :=
  if jsstring_eqb text (payload_content (js "销")) then
    Some (JObj [(KEY_CONTENT, JStr (js "销"))])
  else if jsstring_eqb text (payload_content (js "售")) then
    Some (JObj [(KEY_CONTENT, JStr (js "售"))])
  else if jsstring_eqb text payload_final then
    Some (JObj [(KEY_IS_FINAL, JBool true)])
  else if jsstring_eqb text payload_not_final then
    Some (JObj [(KEY_IS_FINAL, JBool false)])
  else if jsstring_eqb text (js "null") then Some JNull
  else None.

Definition example_ToString (v : JSValue Z) : option jsstring :=
  match v with
  | JNull => Some (js "null")
  | JBool true => Some (js "true")
  | JBool false => Some (js "false")
  | _ => None
  end.

Definition example_runtime : Runtime :=
  {| JSNumber := Z;
     Number_truthy := fun n => negb (n =? 0)%Z;
     JSON_parse := example_parse;
     ToString := example_ToString |}.

Definition example_env : SendEnv :=
  {| user_id := js "1700000000000-k3j2h1g0f";
     user_ts := 1700000000000;
     ai_id := js "1700000000000-9z8y7x6w5";
     ai_ts := 1700000000000;
     session_id := js "1700000000001-a1b2c3d4e";
     VITE_API_URL := None;
     EventSource_ok := true |}.

Definition example_query : jsstring := js "查询销售额最高的10个产品".

(** The view after the query was typed and connection 5 selected. *)
Definition example_ready : State :=
  set_query example_query (set_selectedConnectionId (Some 5%Z) init).

Definition example_chunk (t : jsstring) : MessageEvent :=
  {| ev_type := js "message"; data := payload_content t |}.

(** A run that is in the middle of a stream: one chunk has arrived. *)
Definition example_run : list Action :=
  [Select 5%Z; Input example_query; Send example_env;
   Message 0 (example_chunk (js "销"))].

(** The same run stopped right after the send: no chunk has arrived. *)
Definition example_opened : State :=
  Eval vm_compute in
    default init
      (run (RT := example_runtime)
         [Select 5%Z; Input example_query; Send example_env] init).

Definition example_streaming : State :=
  Eval vm_compute in
    default init (run (RT := example_runtime) example_run init).

Definition example_connection : ConnSourceDTO.t :=
  ConnSourceDTO.mk 5 (js "sales") (js "mysql") (js "db.internal") 3306
    (js "reader") (js "***") (js "shop") 1 None None None.

(** ** Invariants of the channels

    Predicates on states used to state and prove the properties below. *)

(** Only the [EventSource] held in [eventSource] can be open, and it is
    the one constructed last. *)
Definition only_current_open (s : State) : Prop :=
  forall h, is_open h s = true ->
    eventSource s = Some h /\ S h = length (heap s).

(** While a channel is open the view is loading and the transcript ends
    with an assistant turn. *)
Definition open_means_streaming (s : State) : Prop :=
  forall h, is_open h s = true ->
    loading s = true
    /\ exists m, lastMessage s = Some m /\ ChatMessage.type m = assistant.

Definition all_closed (s : State) : Prop := forall h, is_open h s = false.

(** The same channels are open, under the same handles. *)
Definition same_channels (s s' : State) : Prop :=
  (forall h, is_open h s' = is_open h s)
  /\ length (heap s') = length (heap s)
  /\ eventSource s' = eventSource s.

(** One channel was constructed and is the only open one. *)
Definition opened (s s' : State) : Prop :=
  (forall h, is_open h s' = true <-> h = length (heap s))
  /\ length (heap s') = S (length (heap s))
  /\ eventSource s' = Some (length (heap s)).

(** ** connectionOptions (lines 188-193) *)

Module SelectOption.
Record t := mk {
  label : jsstring;
  value : Z;
}.
End SelectOption.

(** [`${c.name} (${c.conn_type})`] *)
Definition optionLabel (c : ConnSourceDTO.t) : jsstring :=
  ConnSourceDTO.name c ++ js " (" ++ ConnSourceDTO.conn_type c ++ js ")".

Definition connectionOptions (s : State) : list SelectOption.t :=
  List.map (fun c => SelectOption.mk (optionLabel c) (ConnSourceDTO.id c))
    (connections s).

(** ** Bindings of the template *)

(** [:disabled="loading || !selectedConnectionId"] of the input
    (line 271). *)
Definition inputDisabled (s : State) : bool :=
  loading s || negb (id_truthy (selectedConnectionId s)).

(** [:disabled="!query.trim() || !selectedConnectionId"] of the send
    button (line 279). *)
Definition sendDisabled (s : State) : bool :=
  negb (str_truthy (trim (query s)))
  || negb (id_truthy (selectedConnectionId s)).

(** What the card of one turn shows (lines 242-253): the spinner when
    [msg.loading], else the error when [msg.error], else the text. *)
Inductive Shown :=
| Spinner
| ErrorText (text : jsstring)
| Text (text : jsstring).

Definition render (msg : ChatMessage.t) : Shown :=
  match ChatMessage.loading msg with
  | Some true => Spinner
  | _ =>
    match ChatMessage.error msg with
    | Some e =>
      if str_truthy e then ErrorText e else Text (ChatMessage.content msg)
    | None => Text (ChatMessage.content msg)
    end
  end.

(** ** Invariants of the transcript *)

Definition pending (m : ChatMessage.t) : Prop :=
  ChatMessage.loading m = Some true.

(** A turn as [handleSend] pushes it for the user. *)
Definition user_turn (m : ChatMessage.t) : Prop :=
  ChatMessage.type m = user
  /\ ChatMessage.content m <> []
  /\ trim (ChatMessage.content m) = ChatMessage.content m
  /\ ChatMessage.loading m = None
  /\ ChatMessage.error m = None.

(** The transcript is a sequence of question/answer pairs. *)
Inductive paired : list ChatMessage.t -> Prop :=
| paired_nil : paired []
| paired_snoc l u a :
    paired l -> user_turn u -> ChatMessage.type a = assistant ->
    paired (l ++ [u; a]).

(** Only the last turn can be pending, and it is exactly while the view
    is loading. *)
Definition spinner_last_only (s : State) : Prop :=
  (forall l m, messages s = l ++ [m] -> Forall (fun x => ~ pending x) l)
  /\ (loading s = true <->
      exists m, lastMessage s = Some m /\ pending m).

(** The text of the last turn is the text accumulated by the open
    channel. *)
Definition text_in_sync (s : State) : Prop :=
  forall h, is_open h s = true ->
    exists m, lastMessage s = Some m
              /\ ChatMessage.content m = aiContent_of h s.

(** How one step of the view changes transcript, loading flag and
    channels. *)
Inductive transcript_step (s s' : State) : Prop :=
| ts_keep :
    messages s' = messages s -> loading s' = loading s ->
    heap s' = heap s \/ all_closed s' ->
    transcript_step s s'
| ts_clear :
    messages s' = [] -> loading s' = false -> all_closed s' ->
    transcript_step s s'
| ts_append u a :
    loading s = false -> user_turn u ->
    ChatMessage.type a = assistant -> ChatMessage.content a = [] ->
    messages s' = messages s ++ [u; a] ->
    (pending a /\ loading s' = true
     /\ (heap s' = heap s
         \/ (opened s s' /\ aiContent_of (length (heap s)) s' = [])))
    \/ (~ pending a /\ loading s' = false /\ all_closed s') ->
    transcript_step s s'
| ts_update l m m' :
    messages s = l ++ [m] -> messages s' = l ++ [m'] ->
    ChatMessage.type m = assistant -> ChatMessage.type m' = assistant ->
    (pending m' /\ loading s' = true /\ same_channels s s'
     /\ (forall h, is_open h s = true ->
                   aiContent_of h s' = ChatMessage.content m'))
    \/ (~ pending m' /\ loading s' = false /\ all_closed s') ->
    transcript_step s s'.

(** ** Vocabulary of the further properties *)

(** The address [handleSend] builds at line 85 from the encoded query. *)
Definition sseUrl_of (env : SendEnv) (s : State) (q : jsstring) : SseUrl :=
  {| url_apiBase := apiBase env; url_query := q;
     url_connection_id := selectedConnectionId s;
     url_session_id := session_id env |}.

Section ChunkVocabulary.
Context {RT : Runtime}.



(** An action other than the two that empty the transcript. *)
Definition keeps_transcript (a : Action) : Prop :=
  match a with
  | Clear | Select _ => False
  | _ => True
  end.

End ChunkVocabulary.

(** [c.status === 1] *)
Definition enabled (c : ConnSourceDTO.t) : bool :=
  (ConnSourceDTO.status c =? 1)%Z.

(** A code unit that may appear in the encoded query: an unreserved mark
    or the percent sign. *)
Definition uriSafe (c : N) : Prop := uriUnreserved c = true \/ c = 0x25%N.

(** ** The fetch made on mount (lines 184-186)

    [loadConnections] has one call site, the [onMounted] hook, so a view
    fetches the registry once; [res] is how that request settles. *)
Definition onMounted (res : option (list ConnSourceDTO.t)) (s : State)
    : State :=
  loadConnections res s.

Definition is_Loaded (a : Action) : bool :=
  match a with
  | Loaded _ => true
  | _ => false
  end.

(** No action of [acts] is the settling of the fetch: the run takes place
    while the request sent on mount is pending. *)
Definition fetch_pending (acts : list Action) : bool :=
  forallb (fun a => negb (is_Loaded a)) acts.

(** ** What reaches the handlers (lines 100 and 131)

    The listeners of the [EventSource] built by [handleSend] are the two
    handler attributes assigned at lines 100 and 131; the view calls
    [addEventListener] nowhere.  An [EventSource] fires each event of the
    stream at itself under the type the stream gives it ([message] when it
    gives none), while its [readyState] is not [CLOSED], and the
    [onmessage] attribute listens to the type [message] only.  So an event
    of another type runs no code of the view. *)
Definition MESSAGE : jsstring := js "message".
Arguments MESSAGE : simpl never.

Section Dispatch.
Context {RT : Runtime}.

Definition dispatchEvent (es : nat) (event : MessageEvent) (s : State)
    : State :=
  if is_open es s && jsstring_eqb (ev_type event) MESSAGE
  then onmessage es event s
  else s.

End Dispatch.

(** The text [[DONE]], which is not JSON. *)
Definition payload_done : jsstring := js "[DONE]".

(** The view of a user who typed a query and pressed send before the
    registry arrived: the send was refused for want of a connection. *)
Definition example_early_run : list Action :=
  [Input example_query; Send example_env].

Definition example_early : State :=
  Eval vm_compute in
    default init (run (RT := example_runtime) example_early_run init).

(** * The connector view (views/aidata/connector/index.vue)

    The list of connector cards, the search form and the edit form of the
    connector management view.  The requests the view sends are not part
    of this model; a function that awaits a response takes the response
    as an argument. *)

(** What the view uses of the runtime's string conversions. *)
Class StringOps := {
  (** [String(n)] *)
  String_of_number : Z -> jsstring;
  (** [s.toLowerCase()] *)
  toLowerCase : jsstring -> jsstring;
}.

(** [s.startsWith(p)] *)
Fixpoint startsWith (s p : jsstring) : bool :=
  match p, s with
  | [], _ => true
  | x :: p', y :: s' => (x =? y)%N && startsWith s' p'
  | _ :: _, [] => false
  end.

(** [s.includes(needle)] *)
Fixpoint includes (s needle : jsstring) : bool :=
  startsWith s needle
  || match s with
     | [] => false
     | _ :: t => includes t needle
     end.

Module Connector.

Module ConnectorItem.
Record t := mk {
  id : jsstring;
  name : jsstring;
  type : jsstring;
  description : option jsstring;      (* description?: string *)
  enabled : bool;
}.
End ConnectorItem.

Module FormModel.
Record t := mk {
  id : jsstring;
  name : jsstring;
  conn_type : jsstring;
  host : jsstring;
  port : option Z;                    (* undefined as unknown as number *)
  username : jsstring;
  password_encrypted : jsstring;
  db_name : jsstring;
  description : jsstring;
  status : Z;
}.
End FormModel.

(** The refs and reactive objects of the component.  [rawMap] is only
    read at the ids of cards, which are number strings, so the lookup in
    the object is a lookup among its own properties. *)
Record State := {
  connectors : list ConnectorItem.t;
  rawMap : gmap jsstring ConnSourceDTO.t;
  query_name : jsstring;              (* query.name *)
  query_type : option jsstring;       (* query.type, undefined once cleared *)
  visible : bool;
  editMode : bool;
  isCreate : bool;
  formModel : FormModel.t;
}.

Definition emptyForm : FormModel.t :=
  FormModel.mk [] [] (js "mysql") [] None [] [] [] [] 1.

Definition init : State :=
  {| connectors := []; rawMap := ∅; query_name := [];
     query_type := Some []; visible := false; editMode := true;
     isCreate := true; formModel := emptyForm |}.

(** ** onReset (lines 62-65) *)
Definition onReset (s : State) : State :=
  {| connectors := connectors s; rawMap := rawMap s; query_name := [];
     query_type := Some []; visible := visible s; editMode := editMode s;
     isCreate := isCreate s; formModel := formModel s |}.

Section WithStrings.
Context {SO : StringOps}.

(** ** filteredConnectors (lines 67-73) *)
Definition byName (s : State) (c : ConnectorItem.t) : bool :=
  if str_truthy (query_name s)
  then includes (toLowerCase (ConnectorItem.name c))
         (toLowerCase (query_name s))
  else true.

Definition byType (s : State) (c : ConnectorItem.t) : bool :=
  match query_type s with
  | Some t =>
    if str_truthy t then jsstring_eqb (ConnectorItem.type c) t else true
  | None => true
  end.

Definition filteredConnectors (s : State) : list ConnectorItem.t :=
  List.filter (fun c => byName s c && byType s c) (connectors s).

(** ** fetchList (lines 75-89), once the response has arrived

    [items] is [res.items], [None] when the response has none. *)
Definition toItem (it : ConnSourceDTO.t) : ConnectorItem.t :=
  ConnectorItem.mk
    (String_of_number (ConnSourceDTO.id it))
    (ConnSourceDTO.name it)
    (ConnSourceDTO.conn_type it)
    (Some match ConnSourceDTO.description it with
          | Some d => if str_truthy d then d else []
          | None => []
          end)
    (ConnSourceDTO.status it =? 1)%Z.

Definition toRawMap (items : list ConnSourceDTO.t)
    : gmap jsstring ConnSourceDTO.t :=
  foldl (fun map it => <[String_of_number (ConnSourceDTO.id it) := it]> map)
    ∅ items.

Definition fetchList (res_items : option (list ConnSourceDTO.t))
    (s : State) : State :=
  let items := match res_items with Some l => l | None => [] end in
  {| connectors := List.map toItem items; rawMap := toRawMap items;
     query_name := query_name s; query_type := query_type s;
     visible := visible s; editMode := editMode s; isCreate := isCreate s;
     formModel := formModel s |}.

End WithStrings.

(** ** openCreate (lines 122-138) *)
Definition openCreate (s : State) : State :=
  {| connectors := connectors s; rawMap := rawMap s;
     query_name := query_name s; query_type := query_type s;
     visible := true; editMode := true; isCreate := true;
     formModel := emptyForm |}.

(** ** openEdit (lines 140-157) *)
Definition editForm (raw : option ConnSourceDTO.t) (item : ConnectorItem.t)
    : FormModel.t :=
  let itemDescription :=
    match ConnectorItem.description item with
    | Some d => d
    | None => []
    end in
  match raw with
  | Some r =>
    FormModel.mk (ConnectorItem.id item) (ConnSourceDTO.name r)
      (ConnSourceDTO.conn_type r) (ConnSourceDTO.host r)
      (Some (ConnSourceDTO.port r)) (ConnSourceDTO.username r) []
      (ConnSourceDTO.db_name r)
      match ConnSourceDTO.description r with
      | Some d => d
      | None => itemDescription
      end
      (ConnSourceDTO.status r)
  | None =>
    FormModel.mk (ConnectorItem.id item) (ConnectorItem.name item)
      (ConnectorItem.type item) [] None [] [] [] itemDescription
      (if ConnectorItem.enabled item then 1 else 0)
  end.

Definition openEdit (item : ConnectorItem.t) (s : State) : State :=
  {| connectors := connectors s; rawMap := rawMap s;
     query_name := query_name s; query_type := query_type s;
     visible := true; editMode := true; isCreate := false;
     formModel := editForm (rawMap s !! ConnectorItem.id item) item |}.

(** ** toggleEdit (lines 159-161) *)
Definition toggleEdit (s : State) : State :=
  {| connectors := connectors s; rawMap := rawMap s;
     query_name := query_name s; query_type := query_type s;
     visible := visible s; editMode := negb (editMode s);
     isCreate := isCreate s; formModel := formModel s |}.

(** ** headerTitle (lines 222-224) *)
Definition headerTitle (s : State) : jsstring :=
  if isCreate s then js "创建数据源"
  else if editMode s then js "编辑数据源"
  else js "数据源详情".

End Connector.

(** A string conversion for the worked examples: decimal numerals and
    lower case for the letters A to Z. *)
Definition example_String_of_number (n : Z) : jsstring :=
  js (DecimalString.NilZero.string_of_int (Z.to_int n)).

Definition example_toLowerCase (s : jsstring) : jsstring :=
  List.map (fun c => if (0x41 <=? c) && (c <=? 0x5A) then c + 0x20 else c)%N
    s.

Definition example_strings : StringOps :=
  {| String_of_number := example_String_of_number;
     toLowerCase := example_toLowerCase |}.

Definition example_other_connection : ConnSourceDTO.t :=
  ConnSourceDTO.mk 7 (js "Warehouse") (js "postgresql") (js "wh.internal")
    5432 (js "etl") (js "***") (js "dw") 0 (Some (js "nightly loads"))
    None None.

(** * Properties *)

(** ** Sanity checks of the string layer *)

Example js_ascii : js "final_result" =
  [102; 105; 110; 97; 108; 95; 114; 101; 115; 117; 108; 116]%N.
Proof. reflexivity. Qed.

Example js_cjk : js "销售" = [0x9500; 0x552E]%N.
Proof. reflexivity. Qed.

Example trim_both_ends :
  trim (js "  a b  ") = js "a b" /\ trim [0x3000; 0x0A]%N = [].
Proof. split; reflexivity. Qed.

Example encodeURIComponent_cjk :
  encodeURIComponent (js "a b销") = Some (js "a%20b%E9%94%80").
Proof. reflexivity. Qed.

Example encodeURIComponent_astral :
  encodeURIComponent [0xD83D; 0xDE00]%N = Some (js "%F0%9F%98%80").
Proof. reflexivity. Qed.

Example encodeURIComponent_lone_surrogate :
  encodeURIComponent [0x61; 0xD83D]%N = None.
Proof. reflexivity. Qed.

(** Closes [same_channels] goals between states with the same heap and
    the same current handle. *)
Ltac same_heap := split; [intros ?; reflexivity|split; reflexivity].

(** ** Transcript helpers *)

Lemma map_last_snoc {A} (f : A -> A) (l : list A) (x : A) :
  map_last f (l ++ [x]) = l ++ [f x].
Proof.
  induction l as [|y l IH]; [reflexivity|].
  cbn [app map_last]. rewrite IH.
  destruct l; reflexivity.
Qed.

Lemma map_last_length {A} (f : A -> A) (l : list A) :
  length (map_last f l) = length l.
Proof.
  destruct (decide (l = [])) as [->|Hne]; [reflexivity|].
  apply last_is_Some in Hne as [x Hx]. apply last_Some in Hx as [l' ->].
  rewrite map_last_snoc, !length_app. reflexivity.
Qed.

Lemma withLastAiMessage_snoc f s l m :
  messages s = l ++ [m] ->
  ChatMessage.type m = assistant ->
  withLastAiMessage f s = set_messages (l ++ [f m]) s.
Proof.
  intros Hm Ht. unfold withLastAiMessage, lastMessage.
  rewrite Hm, last_snoc, Ht. cbn. now rewrite map_last_snoc.
Qed.

Lemma withLastAiMessage_skip f s :
  (forall m, lastMessage s = Some m -> ChatMessage.type m <> assistant) ->
  withLastAiMessage f s = s.
Proof.
  intros H. unfold withLastAiMessage.
  destruct (lastMessage s) as [m|] eqn:E; [|reflexivity].
  specialize (H m eq_refl).
  destruct (ChatMessage.type m); cbn; [reflexivity|congruence].
Qed.

Lemma withLastAiMessage_heap f s : heap (withLastAiMessage f s) = heap s.
Proof.
  unfold withLastAiMessage.
  destruct (lastMessage s) as [m|]; [|reflexivity].
  destruct (is_assistant _); reflexivity.
Qed.

Lemma withLastAiMessage_effects f s :
  effects (withLastAiMessage f s) = effects s.
Proof.
  unfold withLastAiMessage.
  destruct (lastMessage s) as [m|]; [|reflexivity].
  destruct (is_assistant _); reflexivity.
Qed.

Lemma withLastAiMessage_eventSource f s :
  eventSource (withLastAiMessage f s) = eventSource s.
Proof.
  unfold withLastAiMessage.
  destruct (lastMessage s) as [m|]; [|reflexivity].
  destruct (is_assistant _); reflexivity.
Qed.

Lemma withLastAiMessage_loading f s :
  loading (withLastAiMessage f s) = loading s.
Proof.
  unfold withLastAiMessage.
  destruct (lastMessage s) as [m|]; [|reflexivity].
  destruct (is_assistant _); reflexivity.
Qed.

(** The block touches the last turn only, and only an assistant one. *)
Lemma withLastAiMessage_messages f s :
  messages (withLastAiMessage f s) =
  match lastMessage s with
  | Some m =>
    if is_assistant (ChatMessage.type m) then map_last f (messages s)
    else messages s
  | None => messages s
  end.
Proof.
  unfold withLastAiMessage.
  destruct (lastMessage s) as [m|]; [|reflexivity].
  destruct (is_assistant _); reflexivity.
Qed.

Lemma withLastAiMessage_length f s :
  length (messages (withLastAiMessage f s)) = length (messages s).
Proof.
  rewrite withLastAiMessage_messages.
  destruct (lastMessage s) as [m|]; [|reflexivity].
  destruct (is_assistant _); [apply map_last_length|reflexivity].
Qed.

(** ** C7: rejected sends *)

(** C7. When the trimmed query is empty, or no connection is selected, or
    a send is already in progress ([loading]), [handleSend] changes no ref
    and no channel: transcript, heap of [EventSource] objects, current
    handle, loading flag, input text, session id, selection and registry
    are as before.  The only call it makes is one [message.warning], and
    only in the first two cases. *)
Theorem handleSend_rejected_is_noop (env : SendEnv) (s : State) :
  str_truthy (trim (query s)) = false
  \/ id_truthy (selectedConnectionId s) = false
  \/ loading s = true ->
  let s' := handleSend env s in
  messages s' = messages s /\ heap s' = heap s
  /\ eventSource s' = eventSource s /\ loading s' = loading s
  /\ query s' = query s /\ currentSessionId s' = currentSessionId s
  /\ selectedConnectionId s' = selectedConnectionId s
  /\ connections s' = connections s
  /\ effects s' = effects s ++
       (if negb (str_truthy (trim (query s)))
        then [message_warning MSG_EMPTY_QUERY]
        else if negb (id_truthy (selectedConnectionId s))
        then [message_warning MSG_NO_CONNECTION]
        else []).
Proof.
  intros H s'. subst s'. unfold handleSend.
  destruct (str_truthy (trim (query s))) eqn:Hq; cbn [negb].
  - destruct (id_truthy (selectedConnectionId s)) eqn:Hc; cbn [negb].
    + destruct (loading s) eqn:Hl.
      * rewrite app_nil_r. repeat split; auto.
      * destruct H as [H|[H|H]]; discriminate.
    + repeat split; reflexivity.
  - repeat split; reflexivity.
Qed.

Lemma handleSend_rejected_is_noop_witness :
  let s := set_loading true example_ready in
  messages (handleSend example_env s) = messages s
  /\ effects (handleSend example_env s) = effects s.
Proof.
  pose proof (handleSend_rejected_is_noop example_env
                (set_loading true example_ready)
                (or_intror (or_intror eq_refl))) as H.
  cbv zeta in H. destruct H as (Hm & _ & _ & _ & _ & _ & _ & _ & He).
  split; [exact Hm|]. rewrite He. vm_compute. reflexivity.
Defined.

(** ** C6: malformed payloads *)

(** Wherever the [try] block throws -- [JSON.parse], the property access
    on [null], the coercion of a [content] that is not a string -- it has
    not changed anything yet. *)
Lemma onmessage_try_throws_early {RT : Runtime} es event s s' :
  onmessage_try es event s = Throw s' -> s' = s.
Proof.
  unfold onmessage_try.
  destruct (JSON_parse (data event)) as [d|]; [|now intros [= <-]].
  destruct (Get d KEY_CONTENT) as [c|]; [|now intros [= <-]].
  unfold andThen, onmessage_content.
  destruct c as [c|]; [|discriminate].
  destruct (truthy (Some c)); [|discriminate].
  destruct (js_add _ c); [discriminate|now intros [= <-]].
Qed.

(** C6. When [JSON.parse] rejects the payload of an event, [onmessage]
    only logs: the accumulated text of the channel, the transcript, every
    [EventSource] object (so the channel is as open as it was), the
    current handle and the loading flag are exactly as before, and the one
    call made is [console.error]. *)
Theorem malformed_chunk_is_dropped {RT : Runtime}
    (es : nat) (event : MessageEvent) (s : State) :
  JSON_parse (data event) = None ->
  let s' := onmessage es event s in
  aiContent_of es s' = aiContent_of es s
  /\ messages s' = messages s
  /\ heap s' = heap s
  /\ is_open es s' = is_open es s
  /\ eventSource s' = eventSource s
  /\ loading s' = loading s
  /\ currentSessionId s' = currentSessionId s
  /\ query s' = query s
  /\ effects s' = effects s ++ [console_error LOG_PARSE_FAILED].
Proof.
  intros Hparse s'. subst s'.
  unfold onmessage, onmessage_try. rewrite Hparse.
  repeat split; reflexivity.
Qed.

Lemma malformed_chunk_is_dropped_witness :
  let s := handleSend example_env example_ready in
  let event := {| ev_type := js "message"; data := js "{content:" |} in
  is_open 0 s = true
  /\ is_open 0 (onmessage (RT := example_runtime) 0 event s) = true
  /\ messages (onmessage (RT := example_runtime) 0 event s) = messages s.
Proof.
  cbv zeta.
  pose proof (malformed_chunk_is_dropped (RT := example_runtime) 0
                {| ev_type := js "message"; data := js "{content:" |}
                (handleSend example_env example_ready) eq_refl) as H.
  cbv zeta in H. destruct H as (_ & Hm & _ & Ho & _).
  split; [vm_compute; reflexivity|]. split; [|exact Hm].
  rewrite Ho. vm_compute. reflexivity.
Defined.

(** ** C10: the handlers and the last turn *)

Lemma onmessage_content_messages {RT : Runtime} es d c s s' :
  (forall m, lastMessage s = Some m -> ChatMessage.type m <> assistant) ->
  onmessage_content es d c s = Normal s' \/ onmessage_content es d c s = Throw s' ->
  messages s' = messages s
  /\ (forall m, lastMessage s' = Some m -> ChatMessage.type m <> assistant).
Proof.
  intros Hlast. unfold onmessage_content.
  destruct c as [c|]; [|intros [[= <-]|[=]]; auto].
  destruct (truthy (Some c)); [|intros [[= <-]|[=]]; auto].
  destruct (js_add _ c) as [acc|]; [|intros [[=]|[= <-]]; auto].
  intros [[= <-]|[=]].
  rewrite withLastAiMessage_skip by exact Hlast. auto.
Qed.

Lemma onmessage_final_messages {RT : Runtime} es event d s :
  (forall m, lastMessage s = Some m -> ChatMessage.type m <> assistant) ->
  messages (onmessage_final es event d s) = messages s.
Proof.
  intros Hlast. unfold onmessage_final.
  destruct (_ || _); [|reflexivity].
  rewrite withLastAiMessage_skip by exact Hlast. reflexivity.
Qed.

(** C10. When the transcript is empty or its last turn is a user turn,
    the message handler (both its content branch and its finalization
    branch, for every event and every outcome of parsing) and the error
    handler leave the transcript exactly as it was.  The lookup of the last
    turn is [undefined] on an empty transcript and the handlers run to
    their end: the error handler still closes the channel and notifies. *)
Theorem handlers_mutate_only_a_last_assistant_turn {RT : Runtime}
    (es : nat) (event : MessageEvent) (d : JSValue JSNumber) (s : State) :
  messages s = []
  \/ (exists m, lastMessage s = Some m /\ ChatMessage.type m = user) ->
  messages (onmessage es event s) = messages s
  /\ messages (onmessage_final es event d s) = messages s
  /\ messages (onerror es s) = messages s
  /\ effects (onerror es s) =
     effects s ++ [console_error LOG_SSE_ERROR; es_close es;
                   message_error MSG_CONNECT_FAILED].
Proof.
  intros H.
  assert (Hlast : forall m, lastMessage s = Some m ->
                            ChatMessage.type m <> assistant).
  { intros m Hm. destruct H as [H|(m' & Hm' & Hu)].
    - unfold lastMessage in Hm. rewrite H in Hm. discriminate.
    - rewrite Hm' in Hm. injection Hm as <-. congruence. }
  split; [|split; [|split]].
  - unfold onmessage, onmessage_try.
    destruct (JSON_parse (data event)) as [d'|]; [|reflexivity].
    destruct (Get d' KEY_CONTENT) as [c|]; [|reflexivity].
    unfold andThen.
    destruct (onmessage_content es d' c s) as [s1|s1] eqn:E.
    + destruct (onmessage_content_messages es d' c s s1 Hlast (or_introl E))
        as [Hm1 Hl1].
      rewrite onmessage_final_messages by exact Hl1. exact Hm1.
    + destruct (onmessage_content_messages es d' c s s1 Hlast (or_intror E))
        as [Hm1 _].
      exact Hm1.
  - apply onmessage_final_messages, Hlast.
  - unfold onerror. cbn [messages emit].
    rewrite withLastAiMessage_skip; [reflexivity|exact Hlast].
  - unfold onerror. cbn [effects emit].
    rewrite withLastAiMessage_effects. cbn.
    rewrite <- !app_assoc. reflexivity.
Qed.

Lemma handlers_mutate_only_a_last_assistant_turn_witness :
  let s := handleClear (handleSend example_env example_ready) in
  let event := {| ev_type := js "message";
                  data := payload_content (js "销") |} in
  messages s = []
  /\ messages (onmessage (RT := example_runtime) 0 event s) = []
  /\ messages (onerror 0 s) = [].
Proof.
  cbv zeta.
  pose proof (handlers_mutate_only_a_last_assistant_turn
                (RT := example_runtime) 0
                {| ev_type := js "message";
                   data := payload_content (js "销") |}
                JNull
                (handleClear (handleSend example_env example_ready))
                (or_introl eq_refl)) as (Hm & _ & He & _).
  split; [reflexivity|]. split; [rewrite Hm|rewrite He]; reflexivity.
Defined.

(** ** A failed fetch of the registry *)

(** [loadConnections] itself never resets the registry: called on a state
    whose registry held one connection, a rejected fetch would leave that
    connection in it. *)
Lemma loadConnections_failure_not_emptied :
  connections
    (loadConnections None (set_connections [example_connection] init))
  <> [].
Proof. cbn. discriminate. Qed.

(** A rejected fetch leaves the registry and the selection as they were,
    logs and surfaces one error notice, and touches nothing else. *)
Lemma loadConnections_failure_keeps_registry (s : State) :
  let s' := loadConnections None s in
  connections s' = connections s
  /\ selectedConnectionId s' = selectedConnectionId s
  /\ messages s' = messages s /\ heap s' = heap s
  /\ eventSource s' = eventSource s /\ loading s' = loading s
  /\ effects s' =
     effects s ++ [console_error LOG_LOAD_FAILED;
                   message_error MSG_LOAD_FAILED]
  /\ connections (loadConnections None init) = [].
Proof.
  cbv zeta. unfold loadConnections. cbn [connections selectedConnectionId
    messages heap eventSource loading effects emit].
  rewrite <- app_assoc. repeat split; reflexivity.
Qed.

(** ** C2: what a send appends *)

Lemma push_messages m s : messages (push m s) = messages s ++ [m].
Proof. reflexivity. Qed.

Lemma handleSend_enqueue_messages env s :
  messages (handleSend_enqueue env s) =
  messages s ++ [userMessage env s; aiMessage env].
Proof.
  unfold handleSend_enqueue. cbn [messages set_currentSessionId set_loading
    set_query push set_messages].
  rewrite <- app_assoc. reflexivity.
Qed.

Lemma closeCurrent_messages s : messages (closeCurrent s) = messages s.
Proof. unfold closeCurrent. destruct (eventSource s); reflexivity. Qed.

Lemma handleSend_connect_messages env u s l m :
  messages s = l ++ [m] ->
  ChatMessage.type m = assistant ->
  messages (handleSend_connect env u s) =
  l ++ [if EventSource_ok env then m
        else set_msg_error MSG_SEND_FAILED (set_msg_loading false m)].
Proof.
  intros Hm Ht. unfold handleSend_connect.
  destruct (EventSource_ok env).
  - cbn [messages set_eventSource newEventSource emit set_heap].
    now rewrite closeCurrent_messages.
  - erewrite withLastAiMessage_snoc; [reflexivity| |exact Ht].
    cbn [messages emit set_loading]. now rewrite closeCurrent_messages.
Qed.

(** C2. For a query that is non-empty after trimming, a selected
    connection and no send in progress, lines 57-81 append exactly two
    turns: a user turn whose text is the trimmed query, then an assistant
    turn with empty text and [loading = true].  When [handleSend] returns
    the transcript is still the old one followed by these two turns; the
    only change the rest of the function can make is the [catch] block's,
    which marks the placeholder failed when the [EventSource] constructor
    throws. *)
Theorem handleSend_appends_user_then_placeholder
    (env : SendEnv) (s : State) :
  str_truthy (trim (query s)) = true ->
  id_truthy (selectedConnectionId s) = true ->
  loading s = false ->
  let u := userMessage env s in
  let a := aiMessage env in
  ChatMessage.type u = user /\ ChatMessage.content u = trim (query s)
  /\ ChatMessage.type a = assistant /\ ChatMessage.content a = []
  /\ ChatMessage.loading a = Some true /\ ChatMessage.error a = None
  /\ messages (handleSend_enqueue env s) = messages s ++ [u; a]
  /\ messages (handleSend env s) =
     messages s ++
       [u; if EventSource_ok env
              || negb (bool_decide
                         (is_Some (encodeURIComponent (trim (query s)))))
           then a
           else set_msg_error MSG_SEND_FAILED (set_msg_loading false a)].
Proof.
  intros Hq Hc Hl u a. subst u a.
  repeat (split; [reflexivity|]).
  split; [apply handleSend_enqueue_messages|].
  unfold handleSend. rewrite Hq, Hc, Hl. cbn [negb].
  destruct (encodeURIComponent (trim (query s))) as [q|] eqn:Hq'.
  - rewrite bool_decide_eq_true_2 by eauto. cbn [negb]. rewrite orb_false_r.
    erewrite handleSend_connect_messages
      with (l := messages s ++ [userMessage env s]) (m := aiMessage env);
      [|rewrite handleSend_enqueue_messages, <- app_assoc; reflexivity
       |reflexivity].
    rewrite <- app_assoc. reflexivity.
  - rewrite bool_decide_eq_false_2 by (intros [? [=]]).
    rewrite orb_true_r. cbn [messages emit].
    apply handleSend_enqueue_messages.
Qed.

Lemma handleSend_appends_user_then_placeholder_witness :
  messages (handleSend example_env example_ready) =
  [ChatMessage.mk (js "1700000000000-k3j2h1g0f") user example_query
     1700000000000 None None;
   ChatMessage.mk (js "1700000000000-9z8y7x6w5") assistant []
     1700000000000 (Some true) None].
Proof.
  pose proof (handleSend_appends_user_then_placeholder example_env
                example_ready eq_refl eq_refl eq_refl) as H.
  cbv zeta in H. destruct H as (_ & _ & _ & _ & _ & _ & _ & H).
  rewrite H. vm_compute. reflexivity.
Defined.

(** ** Channels: which [EventSource] objects can be open *)

Lemma is_open_lt h s : is_open h s = true -> h < length (heap s).
Proof.
  unfold is_open. destruct (heap s !! h) as [o|] eqn:E; [|discriminate].
  intros _. eapply lookup_lt_Some, E.
Qed.

Lemma is_open_close h h' s :
  is_open h (close h' s) = true <-> is_open h s = true /\ h <> h'.
Proof.
  unfold is_open, close. cbn [heap emit set_heap].
  rewrite list_lookup_alter. case_decide as Hd.
  - subst h'. destruct (heap s !! h) as [o|]; cbn; split;
      try discriminate; intros [_ Hne]; congruence.
  - destruct (heap s !! h) as [o|]; cbn; split; try tauto;
      try discriminate; intros H; split; auto.
Qed.

Lemma close_length h s : length (heap (close h s)) = length (heap s).
Proof. unfold close. cbn. apply length_alter. Qed.

Lemma is_open_set_aiContent h acc es s :
  is_open h (set_heap (alter (set_aiContent acc) es (heap s)) s) =
  is_open h s.
Proof.
  unfold is_open. cbn [heap set_heap].
  rewrite list_lookup_alter. case_decide as Hd; [subst es|reflexivity].
  destruct (heap s !! h); reflexivity.
Qed.

Lemma is_open_newEventSource h u s :
  is_open h (newEventSource u s) = true <->
  is_open h s = true \/ h = length (heap s).
Proof.
  unfold is_open, newEventSource. cbn [heap emit set_heap].
  destruct (decide (h < length (heap s))) as [Hlt|Hge].
  - rewrite lookup_app_l by exact Hlt. split; [auto|].
    intros [H|H]; [exact H|lia].
  - rewrite lookup_app_r by lia.
    rewrite (lookup_ge_None_2 (heap s) h) by lia.
    destruct (h - length (heap s)) as [|k] eqn:E; cbn.
    + split; [intros _; right; lia|reflexivity].
    + split; [discriminate|intros [H|H]; [discriminate|lia]].
Qed.

Lemma all_closed_only_current s : all_closed s -> only_current_open s.
Proof. intros H h Hh. rewrite H in Hh. discriminate. Qed.

Lemma all_closed_streaming s : all_closed s -> open_means_streaming s.
Proof. intros H h Hh. rewrite H in Hh. discriminate. Qed.

Lemma same_channels_only_current s s' :
  same_channels s s' -> only_current_open s -> only_current_open s'.
Proof.
  intros (Ho & Hl & He) H h Hh. rewrite Ho in Hh.
  rewrite Hl, He. apply H, Hh.
Qed.

Lemma opened_only_current s s' : opened s s' -> only_current_open s'.
Proof.
  intros (Ho & Hl & He) h Hh. apply Ho in Hh. subst h.
  rewrite Hl, He. auto.
Qed.

Lemma same_channels_refl s : same_channels s s.
Proof. repeat split. Qed.

Lemma same_channels_emit e s : same_channels s (emit e s).
Proof. same_heap. Qed.

Lemma same_channels_trans s1 s2 s3 :
  same_channels s1 s2 -> same_channels s2 s3 -> same_channels s1 s3.
Proof.
  intros (Ho & Hl & He) (Ho' & Hl' & He').
  split; [|split; congruence].
  intros h. rewrite Ho'. apply Ho.
Qed.

Lemma withLastAiMessage_same_channels f s :
  same_channels s (withLastAiMessage f s).
Proof.
  unfold same_channels, is_open.
  rewrite withLastAiMessage_heap, withLastAiMessage_eventSource. auto.
Qed.

(** Closing the current handle of a state in which only it can be open
    leaves nothing open. *)
Lemma close_current_all_closed h s :
  only_current_open s -> (eventSource s = Some h \/ is_open h s = true) ->
  all_closed (close h s).
Proof.
  intros Hinv Hcur h'. apply not_true_is_false. intros Ho.
  apply is_open_close in Ho as [Ho Hne].
  destruct (Hinv h' Ho) as [He _].
  destruct Hcur as [Hcur|Hcur]; [congruence|].
  destruct (Hinv h Hcur) as [He' _]. congruence.
Qed.

Lemma none_current_all_closed s :
  only_current_open s -> eventSource s = None -> all_closed s.
Proof.
  intros Hinv Hnone h. apply not_true_is_false. intros Ho.
  destruct (Hinv h Ho) as [He _]. congruence.
Qed.

Lemma closeCurrent_all_closed s :
  only_current_open s -> all_closed (closeCurrent s).
Proof.
  intros Hinv. unfold closeCurrent.
  destruct (eventSource s) as [h|] eqn:E.
  - apply close_current_all_closed; auto.
  - apply none_current_all_closed; auto.
Qed.

Lemma closeCurrent_length s :
  length (heap (closeCurrent s)) = length (heap s).
Proof.
  unfold closeCurrent. destruct (eventSource s); [apply close_length|easy].
Qed.

Lemma handleClear_all_closed s :
  only_current_open s -> all_closed (handleClear s).
Proof.
  intros Hinv. unfold handleClear. cbn [eventSource set_messages].
  destruct (eventSource s) as [h|] eqn:E.
  - intros h'. change (is_open h' (close h s) = false).
    apply close_current_all_closed; auto.
  - intros h'. change (is_open h' s = false).
    apply none_current_all_closed; auto.
Qed.

Lemma handleClear_length s :
  length (heap (handleClear s)) = length (heap s).
Proof.
  unfold handleClear. cbn [eventSource set_messages].
  destruct (eventSource s); cbn; [apply length_alter|reflexivity].
Qed.

Lemma closeCurrent_loading s : loading (closeCurrent s) = loading s.
Proof. unfold closeCurrent. destruct (eventSource s); reflexivity. Qed.

Lemma closeCurrent_eventSource s :
  eventSource (closeCurrent s) = eventSource s.
Proof.
  unfold closeCurrent. destruct (eventSource s) eqn:E; exact E.
Qed.

Lemma closeCurrent_effects s :
  effects (closeCurrent s) =
  effects s ++ match eventSource s with
               | Some h => [es_close h]
               | None => []
               end.
Proof.
  unfold closeCurrent. destruct (eventSource s); cbn; [reflexivity|].
  now rewrite app_nil_r.
Qed.

Lemma lastMessage_withLastAiMessage f s m :
  lastMessage s = Some m ->
  ChatMessage.type m = assistant ->
  lastMessage (withLastAiMessage f s) = Some (f m).
Proof.
  intros Hm Ht. unfold lastMessage in Hm.
  apply last_Some in Hm as [l Hl].
  rewrite (withLastAiMessage_snoc f s l m Hl Ht).
  unfold lastMessage. cbn [messages set_messages]. apply last_snoc.
Qed.

Lemma lastMessage_same s s' :
  messages s' = messages s -> lastMessage s' = lastMessage s.
Proof. unfold lastMessage. now intros ->. Qed.

(** The three ways a call of [handleSend] can end. *)
Lemma handleSend_cases env s :
  let s' := handleSend env s in
  (heap s' = heap s /\ eventSource s' = eventSource s
   /\ loading s' = loading s /\ messages s' = messages s)
  \/ (loading s = false /\ heap s' = heap s
      /\ eventSource s' = eventSource s)
  \/ (loading s = false
      /\ exists u, s' = handleSend_connect env u (handleSend_enqueue env s)).
Proof.
  cbv zeta. unfold handleSend.
  destruct (str_truthy (trim (query s))); cbn [negb]; [|left; easy].
  destruct (id_truthy (selectedConnectionId s)); cbn [negb]; [|left; easy].
  destruct (loading s) eqn:Hl; [left; easy|].
  destruct (encodeURIComponent (trim (query s))) as [q|].
  - right; right. split; [reflexivity|]. eexists. reflexivity.
  - right; left. easy.
Qed.

Lemma handleSend_connect_ok env u s :
  EventSource_ok env = true ->
  only_current_open s ->
  let s' := handleSend_connect env u s in
  opened s s' /\ loading s' = loading s /\ messages s' = messages s
  /\ effects s' =
     effects s ++ match eventSource s with
                  | Some h => [es_close h]
                  | None => []
                  end ++ [es_new (length (heap s))].
Proof.
  intros Hok Hinv. cbv zeta. unfold handleSend_connect. rewrite Hok.
  pose proof (closeCurrent_all_closed s Hinv) as Hclosed.
  split; [|split; [|split]].
  - split; [|split].
    + intros h.
      change (is_open h (newEventSource u (closeCurrent s)) = true
              <-> h = length (heap s)).
      rewrite is_open_newEventSource, Hclosed, closeCurrent_length.
      split; [intros [H|H]; [discriminate|exact H]|auto].
    + cbn [heap set_eventSource newEventSource emit set_heap].
      rewrite length_app, closeCurrent_length. cbn. lia.
    + cbn [eventSource set_eventSource]. now rewrite closeCurrent_length.
  - cbn [loading set_eventSource newEventSource emit set_heap].
    apply closeCurrent_loading.
  - cbn [messages set_eventSource newEventSource emit set_heap].
    apply closeCurrent_messages.
  - cbn [effects set_eventSource newEventSource emit set_heap].
    rewrite closeCurrent_effects, closeCurrent_length, app_assoc.
    reflexivity.
Qed.

Lemma handleSend_connect_failed env u s :
  EventSource_ok env = false ->
  only_current_open s ->
  let s' := handleSend_connect env u s in
  all_closed s' /\ length (heap s') = length (heap s).
Proof.
  intros Hok Hinv. cbv zeta. unfold handleSend_connect. rewrite Hok.
  pose proof (closeCurrent_all_closed s Hinv) as Hclosed.
  split.
  - intros h. unfold is_open. rewrite withLastAiMessage_heap.
    apply (Hclosed h).
  - rewrite withLastAiMessage_heap. cbn [heap emit set_loading].
    apply closeCurrent_length.
Qed.

Lemma handleSend_enqueue_same_channels env s :
  same_channels s (handleSend_enqueue env s).
Proof. repeat split. Qed.

(** [handleSend] keeps the open channels, or closes all, or replaces
    them by the one it constructs. *)
Lemma handleSend_channels env s :
  only_current_open s ->
  let s' := handleSend env s in
  same_channels s s'
  \/ (all_closed s' /\ length (heap s') = length (heap s))
  \/ opened s s'.
Proof.
  intros Hinv. cbv zeta.
  destruct (handleSend_cases env s) as [H|[H|H]].
  - left. destruct H as (Hh & He & _). unfold same_channels, is_open.
    rewrite Hh, He. auto.
  - left. destruct H as (_ & Hh & He). unfold same_channels, is_open.
    rewrite Hh, He. auto.
  - destruct H as (_ & u & ->).
    assert (Hinv' : only_current_open (handleSend_enqueue env s)).
    { eapply same_channels_only_current;
        [apply handleSend_enqueue_same_channels|exact Hinv]. }
    destruct (EventSource_ok env) eqn:Hok.
    + right; right.
      destruct (handleSend_connect_ok env u _ Hok Hinv') as [Ho _].
      exact Ho.
    + right; left. apply (handleSend_connect_failed env u _ Hok Hinv').
Qed.

Section HandlerChannels.
Context {RT : Runtime}.

Lemma onmessage_content_effect es d c s s1 :
  onmessage_content es d c s = Normal s1
  \/ onmessage_content es d c s = Throw s1 ->
  same_channels s s1 /\ loading s1 = loading s
  /\ ((exists m, lastMessage s = Some m
                 /\ ChatMessage.type m = assistant) ->
      exists m, lastMessage s1 = Some m
                /\ ChatMessage.type m = assistant).
Proof.
  unfold onmessage_content.
  destruct c as [c|];
    [|intros [[= <-]|[=]]; auto using same_channels_refl].
  destruct (truthy (Some c));
    [|intros [[= <-]|[=]]; auto using same_channels_refl].
  destruct (js_add _ c) as [acc|];
    [|intros [[=]|[= <-]]; auto using same_channels_refl].
  intros [[= <-]|[=]].
  split; [|split].
  - eapply same_channels_trans; [|apply withLastAiMessage_same_channels].
    split; [intros h; apply is_open_set_aiContent|].
    split; [apply length_alter|reflexivity].
  - rewrite withLastAiMessage_loading. reflexivity.
  - intros (m & Hm & Ht). eexists. split.
    + apply lastMessage_withLastAiMessage; [exact Hm|exact Ht].
    + exact Ht.
Qed.

Lemma onmessage_final_effect es event d s :
  only_current_open s ->
  is_open es s = true ->
  let s' := onmessage_final es event d s in
  s' = s \/ (all_closed s' /\ length (heap s') = length (heap s)).
Proof.
  intros Hinv Ho. cbv zeta. unfold onmessage_final.
  destruct (_ || _); [right|left; reflexivity].
  split.
  - intros h. unfold is_open. rewrite withLastAiMessage_heap.
    apply (close_current_all_closed es s Hinv (or_intror Ho) h).
  - rewrite withLastAiMessage_heap. apply close_length.
Qed.

Lemma onmessage_channels es event s :
  only_current_open s ->
  is_open es s = true ->
  let s' := onmessage es event s in
  same_channels s s'
  \/ (all_closed s' /\ length (heap s') = length (heap s)).
Proof.
  intros Hinv Ho. cbv zeta. unfold onmessage, onmessage_try.
  destruct (JSON_parse (data event)) as [d|];
    [|left; apply same_channels_emit].
  destruct (Get d KEY_CONTENT) as [c|]; [|left; apply same_channels_emit].
  unfold andThen.
  destruct (onmessage_content es d c s) as [s1|s1] eqn:E.
  - destruct (onmessage_content_effect es d c s s1 (or_introl E))
      as (Hsame & _).
    assert (Hinv1 : only_current_open s1)
      by (eapply same_channels_only_current; eauto).
    assert (Ho1 : is_open es s1 = true)
      by (destruct Hsame as [Hs _]; now rewrite Hs).
    destruct (onmessage_final_effect es event d s1 Hinv1 Ho1) as [->|[Hc Hl]].
    + left. exact Hsame.
    + right. split; [exact Hc|].
      destruct Hsame as (_ & Hlen & _). congruence.
  - destruct (onmessage_content_effect es d c s s1 (or_intror E))
      as (Hsame & _).
    left. destruct Hsame as (Hs & Hl & He). repeat split; auto.
Qed.

Lemma onerror_all_closed es s :
  only_current_open s ->
  is_open es s = true ->
  all_closed (onerror es s) /\ length (heap (onerror es s)) = length (heap s).
Proof.
  intros Hinv Ho. unfold onerror. split.
  - intros h. unfold is_open. cbn [heap emit].
    rewrite withLastAiMessage_heap.
    assert (Hinv' : only_current_open (emit (console_error LOG_SSE_ERROR) s))
      by exact Hinv.
    assert (Ho' : is_open es (emit (console_error LOG_SSE_ERROR) s) = true)
      by exact Ho.
    apply (close_current_all_closed es _ Hinv' (or_intror Ho') h).
  - cbn [heap emit]. rewrite withLastAiMessage_heap.
    cbn [heap set_loading set_eventSource]. rewrite close_length.
    reflexivity.
Qed.

(** Every step keeps the open channels, or closes all of them, or
    replaces them by one new channel. *)
Lemma step_channels a s s' :
  only_current_open s ->
  step a s = Some s' ->
  same_channels s s'
  \/ (all_closed s' /\ length (heap s') = length (heap s))
  \/ opened s s'.
Proof.
  intros Hinv. destruct a as [text|env| |v|res|es event|es|]; cbn [step].
  - intros [= <-]. left. same_heap.
  - intros [= <-]. apply handleSend_channels, Hinv.
  - intros [= <-]. right; left. split.
    + apply handleClear_all_closed, Hinv.
    + apply handleClear_length.
  - intros [= <-]. right; left. split.
    + apply handleClear_all_closed. exact Hinv.
    + rewrite handleClear_length. reflexivity.
  - intros [= <-]. left. unfold loadConnections.
    destruct res as [items|]; [|same_heap].
    cbn [connections set_connections].
    destruct (List.filter _ items); [same_heap|].
    destruct (negb _); same_heap.
  - destruct (is_open es s) eqn:Ho; [|discriminate]. intros [= <-].
    destruct (onmessage_channels es event s Hinv Ho) as [H|H]; auto.
  - destruct (is_open es s) eqn:Ho; [|discriminate]. intros [= <-].
    right; left. apply onerror_all_closed; assumption.
  - intros [= <-]. right; left. split.
    + apply closeCurrent_all_closed, Hinv.
    + apply closeCurrent_length.
Qed.

Lemma step_only_current a s s' :
  only_current_open s -> step a s = Some s' -> only_current_open s'.
Proof.
  intros Hinv Hstep.
  destruct (step_channels a s s' Hinv Hstep) as [H|[[H _]|H]].
  - eapply same_channels_only_current; eauto.
  - apply all_closed_only_current, H.
  - eapply opened_only_current, H.
Qed.

Lemma run_only_current acts s s' :
  only_current_open s -> run acts s = Some s' -> only_current_open s'.
Proof.
  revert s. induction acts as [|a acts IH]; intros s Hinv; cbn [run].
  - now intros [= <-].
  - destruct (step a s) as [s1|] eqn:E; [|discriminate].
    apply IH. eapply step_only_current; eauto.
Qed.

Lemma init_only_current : only_current_open init.
Proof. intros h Hh. destruct h; discriminate. Qed.

End HandlerChannels.

Section SessionInvariant.
Context {RT : Runtime}.

Lemma streaming_transfer s s' :
  same_channels s s' ->
  loading s' = loading s ->
  ((exists m, lastMessage s = Some m /\ ChatMessage.type m = assistant) ->
   exists m, lastMessage s' = Some m /\ ChatMessage.type m = assistant) ->
  open_means_streaming s -> open_means_streaming s'.
Proof.
  intros (Ho & _ & _) Hl Hm H h Hh. rewrite Ho in Hh.
  destruct (H h Hh) as [Hload Hlast]. rewrite Hl. auto.
Qed.

Lemma not_loading_all_closed s :
  open_means_streaming s -> loading s = false -> all_closed s.
Proof.
  intros H Hl h. apply not_true_is_false. intros Hh.
  destruct (H h Hh) as [Hload _]. congruence.
Qed.

Lemma handleSend_streaming env s :
  only_current_open s -> open_means_streaming s ->
  open_means_streaming (handleSend env s).
Proof.
  intros Hinv Hs.
  destruct (handleSend_cases env s) as [H|[H|H]].
  - destruct H as (Hh & He & Hl & Hm).
    apply (streaming_transfer s); auto.
    + unfold same_channels, is_open. rewrite Hh, He. auto.
    + now rewrite (lastMessage_same _ _ Hm).
  - destruct H as (Hl & Hh & He).
    apply all_closed_streaming. intros h. unfold is_open. rewrite Hh.
    apply (not_loading_all_closed s Hs Hl h).
  - destruct H as (Hl & u & ->).
    assert (Hinv' : only_current_open (handleSend_enqueue env s)).
    { eapply same_channels_only_current;
        [apply handleSend_enqueue_same_channels|exact Hinv]. }
    destruct (EventSource_ok env) eqn:Hok.
    + destruct (handleSend_connect_ok env u _ Hok Hinv')
        as (_ & Hload & Hmsg & _).
      intros h _. split; [rewrite Hload; reflexivity|].
      exists (aiMessage env). split; [|reflexivity].
      unfold lastMessage. rewrite Hmsg, handleSend_enqueue_messages.
      change [userMessage env s; aiMessage env]
        with ([userMessage env s] ++ [aiMessage env]).
      rewrite app_assoc. apply last_snoc.
    + apply all_closed_streaming.
      apply (handleSend_connect_failed env u _ Hok Hinv').
Qed.

Lemma onmessage_streaming es event s :
  only_current_open s -> open_means_streaming s ->
  is_open es s = true ->
  open_means_streaming (onmessage es event s).
Proof.
  intros Hinv Hs Ho. unfold onmessage, onmessage_try.
  destruct (JSON_parse (data event)) as [d|]; [|exact Hs].
  destruct (Get d KEY_CONTENT) as [c|]; [|exact Hs].
  unfold andThen.
  destruct (onmessage_content es d c s) as [s1|s1] eqn:E.
  - destruct (onmessage_content_effect es d c s s1 (or_introl E))
      as (Hsame & Hl & Hm).
    assert (Hs1 : open_means_streaming s1)
      by (eapply streaming_transfer; eauto).
    assert (Hinv1 : only_current_open s1)
      by (eapply same_channels_only_current; eauto).
    assert (Ho1 : is_open es s1 = true)
      by (destruct Hsame as [Hx _]; now rewrite Hx).
    destruct (onmessage_final_effect es event d s1 Hinv1 Ho1) as [->|[Hc _]].
    + exact Hs1.
    + apply all_closed_streaming, Hc.
  - destruct (onmessage_content_effect es d c s s1 (or_intror E))
      as (Hsame & Hl & Hm).
    assert (Hs1 : open_means_streaming s1)
      by (eapply streaming_transfer; eauto).
    exact Hs1.
Qed.

Lemma step_streaming a s s' :
  only_current_open s -> open_means_streaming s ->
  step a s = Some s' -> open_means_streaming s'.
Proof.
  intros Hinv Hs. destruct a as [text|env| |v|res|es event|es|]; cbn [step].
  - intros [= <-]. exact Hs.
  - intros [= <-]. apply handleSend_streaming; assumption.
  - intros [= <-]. apply all_closed_streaming, handleClear_all_closed, Hinv.
  - intros [= <-]. apply all_closed_streaming, handleClear_all_closed.
    exact Hinv.
  - intros [= <-]. unfold loadConnections.
    destruct res as [items|]; [|exact Hs].
    cbn [connections set_connections].
    destruct (List.filter _ items); [exact Hs|].
    destruct (negb _); exact Hs.
  - destruct (is_open es s) eqn:Ho; [|discriminate]. intros [= <-].
    apply onmessage_streaming; assumption.
  - destruct (is_open es s) eqn:Ho; [|discriminate]. intros [= <-].
    apply all_closed_streaming. apply onerror_all_closed; assumption.
  - intros [= <-]. apply all_closed_streaming, closeCurrent_all_closed, Hinv.
Qed.

(** Both invariants hold in every state the view can reach. *)
Lemma run_invariant acts s s' :
  only_current_open s -> open_means_streaming s ->
  run acts s = Some s' ->
  only_current_open s' /\ open_means_streaming s'.
Proof.
  revert s. induction acts as [|a acts IH]; intros s Hinv Hs; cbn [run].
  - intros [= <-]. auto.
  - destruct (step a s) as [s1|] eqn:E; [|discriminate].
    apply IH.
    + eapply step_only_current; eauto.
    + eapply step_streaming; eauto.
Qed.

Lemma init_streaming : open_means_streaming init.
Proof. intros h Hh. destruct h; discriminate. Qed.

End SessionInvariant.

(** ** C1: one open channel, no interleaved streams *)

Lemma handleSend_connect_length env u s :
  length (heap (handleSend_connect env u s)) =
  if EventSource_ok env then S (length (heap s)) else length (heap s).
Proof.
  unfold handleSend_connect. destruct (EventSource_ok env).
  - cbn [heap set_eventSource newEventSource emit set_heap].
    rewrite length_app, closeCurrent_length. cbn. lia.
  - rewrite withLastAiMessage_heap. cbn [heap emit set_loading].
    apply closeCurrent_length.
Qed.

(** A send that constructs an [EventSource]: what it did, in order. *)
Lemma handleSend_opening env s :
  only_current_open s ->
  length (heap (handleSend env s)) <> length (heap s) ->
  let s' := handleSend env s in
  opened s s'
  /\ loading s' = true
  /\ messages s' = messages s ++ [userMessage env s; aiMessage env]
  /\ effects s' =
     effects s ++ match eventSource s with
                  | Some h => [es_close h]
                  | None => []
                  end ++ [es_new (length (heap s))].
Proof.
  intros Hinv Hlen. cbv zeta.
  destruct (handleSend_cases env s) as [H|[H|H]].
  - destruct H as (Hh & _). now rewrite Hh in Hlen.
  - destruct H as (_ & Hh & _). now rewrite Hh in Hlen.
  - destruct H as (_ & u & Heq). rewrite Heq in *.
    rewrite handleSend_connect_length in Hlen.
    destruct (EventSource_ok env) eqn:Hok; [|now destruct Hlen].
    assert (Hinv' : only_current_open (handleSend_enqueue env s)).
    { eapply same_channels_only_current;
        [apply handleSend_enqueue_same_channels|exact Hinv]. }
    destruct (handleSend_connect_ok env u _ Hok Hinv')
      as (Ho & Hload & Hmsg & Heff).
    split; [exact Ho|]. split; [rewrite Hload; reflexivity|].
    split; [rewrite Hmsg; apply handleSend_enqueue_messages|exact Heff].
Qed.

(** C1. Start from any state in which at most the channel held in
    [eventSource] is open (the initial state is one), and let the view
    run.  Then, in every state reached: (1) at most one channel is open;
    (2) as soon as a later channel exists, an earlier one is closed, so
    neither a chunk nor an error of the earlier session is dispatched any
    more; (3) a send that constructs a channel first closes the channel
    held so far -- the [close] call precedes the [new EventSource] call --
    and leaves the new channel as the only open one. *)
Theorem streams_never_interleave {RT : Runtime}
    (s0 : State) (acts : list Action) (s : State) :
  only_current_open s0 ->
  run acts s0 = Some s ->
  (forall h1 h2, is_open h1 s = true -> is_open h2 s = true -> h1 = h2)
  /\ (forall h1 h2 event,
        h1 < h2 -> h2 < length (heap s) ->
        is_open h1 s = false
        /\ step (Message h1 event) s = None
        /\ step (Error h1) s = None)
  /\ (forall env,
        length (heap (handleSend env s)) <> length (heap s) ->
        let s' := handleSend env s in
        effects s' =
          effects s ++ match eventSource s with
                       | Some h => [es_close h]
                       | None => []
                       end ++ [es_new (length (heap s))]
        /\ eventSource s' = Some (length (heap s))
        /\ (forall h, is_open h s' = true <-> h = length (heap s))).
Proof.
  intros H0 Hrun.
  pose proof (run_only_current acts s0 s H0 Hrun) as Hinv.
  split; [|split].
  - intros h1 h2 H1 H2.
    destruct (Hinv h1 H1) as [_ E1]. destruct (Hinv h2 H2) as [_ E2]. lia.
  - intros h1 h2 event Hlt Hlen.
    assert (Hc : is_open h1 s = false).
    { apply not_true_is_false. intros Ho.
      destruct (Hinv h1 Ho) as [_ E]. lia. }
    cbn [step]. rewrite Hc. auto.
  - intros env Hlen. cbv zeta.
    destruct (handleSend_opening env s Hinv Hlen)
      as ((Ho & _ & He) & _ & _ & Heff).
    auto.
Qed.

Lemma streams_never_interleave_witness :
  let s0 := set_loading false (handleSend example_env example_ready) in
  let event := {| ev_type := js "message";
                  data := payload_content (js "销") |} in
  is_open 0 s0 = true
  /\ exists s,
       run (RT := example_runtime)
         [Input example_query; Send example_env] s0 = Some s
       /\ is_open 0 s = false /\ is_open 1 s = true
       /\ step (RT := example_runtime) (Message 0 event) s = None.
Proof.
  cbv zeta. split; [vm_compute; reflexivity|].
  eexists. split; [reflexivity|].
  assert (H0 : only_current_open
                 (set_loading false (handleSend example_env example_ready))).
  { intros [|h] Hh; [split; reflexivity|].
    destruct h; vm_compute in Hh; discriminate. }
  destruct (streams_never_interleave (RT := example_runtime) _
              [Input example_query; Send example_env] _ H0 eq_refl)
    as (_ & Hold & _).
  destruct (Hold 0 1 {| ev_type := js "message";
                        data := payload_content (js "销") |})
    as (Hc & Hm & _); [lia|vm_compute; lia|].
  split; [exact Hc|]. split; [vm_compute; reflexivity|exact Hm].
Defined.

(** ** C8: clear *)

(** C8. In every state the view can reach -- idle, waiting for the first
    chunk, in the middle of a stream, after completion or failure --
    [handleClear] returns a state with an empty transcript, no current
    handle, the loading flag cleared and every [EventSource] closed.  It
    constructs no [EventSource]; the only call it makes is [close] on the
    handle it held, if any. *)
Theorem handleClear_resets {RT : Runtime}
    (acts : list Action) (s : State) :
  run acts init = Some s ->
  let s' := handleClear s in
  messages s' = []
  /\ eventSource s' = None
  /\ loading s' = false
  /\ (forall h, is_open h s' = false)
  /\ length (heap s') = length (heap s)
  /\ effects s' =
     effects s ++ match eventSource s with
                  | Some h => [es_close h]
                  | None => []
                  end.
Proof.
  intros Hrun. cbv zeta.
  pose proof (run_only_current acts init s init_only_current Hrun) as Hinv.
  split; [|split; [|split; [|split; [|split]]]].
  - unfold handleClear. cbn [eventSource set_messages].
    destruct (eventSource s); reflexivity.
  - unfold handleClear. cbn [eventSource set_messages].
    destruct (eventSource s) eqn:E; [reflexivity|exact E].
  - reflexivity.
  - apply handleClear_all_closed, Hinv.
  - apply handleClear_length.
  - unfold handleClear. cbn [eventSource set_messages].
    destruct (eventSource s); cbn; [reflexivity|now rewrite app_nil_r].
Qed.

Lemma handleClear_resets_witness :
  run (RT := example_runtime) example_run init = Some example_streaming
  /\ is_open 0 example_streaming = true
  /\ loading example_streaming = true
  /\ length (messages example_streaming) = 2
  /\ messages (handleClear example_streaming) = []
  /\ is_open 0 (handleClear example_streaming) = false
  /\ loading (handleClear example_streaming) = false.
Proof.
  assert (Hrun : run (RT := example_runtime) example_run init
                 = Some example_streaming) by (vm_compute; reflexivity).
  split; [exact Hrun|].
  split; [vm_compute; reflexivity|].
  split; [vm_compute; reflexivity|].
  split; [vm_compute; reflexivity|].
  destruct (handleClear_resets (RT := example_runtime) example_run
              example_streaming Hrun)
    as (Hm & _ & Hl & Hc & _).
  split; [exact Hm|]. split; [apply Hc|exact Hl].
Defined.

(** ** C5: transport errors *)

Lemma handleSend_opening_messages env s :
  length (heap (handleSend env s)) <> length (heap s) ->
  messages (handleSend env s) =
  messages s ++ [userMessage env s; aiMessage env].
Proof.
  intros Hlen.
  destruct (handleSend_cases env s) as [H|[H|H]].
  - destruct H as (Hh & _). now rewrite Hh in Hlen.
  - destruct H as (_ & Hh & _). now rewrite Hh in Hlen.
  - destruct H as (_ & u & Heq). rewrite Heq in *.
    rewrite handleSend_connect_length in Hlen.
    destruct (EventSource_ok env) eqn:Hok; [|now destruct Hlen].
    erewrite handleSend_connect_messages
      with (l := messages s ++ [userMessage env s]) (m := aiMessage env);
      [|rewrite handleSend_enqueue_messages, <- app_assoc; reflexivity
       |reflexivity].
    rewrite Hok, <- app_assoc. reflexivity.
Qed.

Lemma MSG_CONNECT_FAILED_nonempty : MSG_CONNECT_FAILED <> [].
Proof. vm_compute. discriminate. Qed.

(** C5. Let the view be in any reachable state in which the channel [es]
    is open, and let that channel report an error.  Afterwards every
    channel is closed, no handle is held and the loading flag is cleared;
    the transcript is the old one with its last turn -- an assistant turn --
    given [loading = false] and the fixed, non-empty error text, its text
    untouched; the handler logs, closes [es], raises one error notice and
    constructs no new [EventSource].  In particular, when the error is the
    first event after the send that opened [es], the transcript ends with
    the user turn and an assistant turn with empty text, [loading = false]
    and the error text. *)
Theorem transport_error_fails_session {RT : Runtime}
    (acts : list Action) (s : State) (es : nat) :
  run acts init = Some s ->
  is_open es s = true ->
  let s' := onerror es s in
  (forall h, is_open h s' = false)
  /\ eventSource s' = None
  /\ loading s' = false
  /\ (exists l m,
        messages s = l ++ [m] /\ ChatMessage.type m = assistant
        /\ messages s' =
           l ++ [ChatMessage.mk (ChatMessage.id m) assistant
                   (ChatMessage.content m) (ChatMessage.timestamp m)
                   (Some false) (Some MSG_CONNECT_FAILED)])
  /\ MSG_CONNECT_FAILED <> []
  /\ effects s' =
     effects s ++ [console_error LOG_SSE_ERROR; es_close es;
                   message_error MSG_CONNECT_FAILED]
  /\ length (heap s') = length (heap s)
  /\ (forall prev env,
        handleSend env prev = s -> es = length (heap prev) ->
        messages s' =
        messages prev ++
          [userMessage env prev;
           ChatMessage.mk (ai_id env) assistant [] (ai_ts env)
             (Some false) (Some MSG_CONNECT_FAILED)]).
Proof.
  intros Hrun Ho. cbv zeta.
  destruct (run_invariant acts init s init_only_current init_streaming Hrun)
    as [Hinv Hs].
  destruct (Hs es Ho) as (_ & m & Hm & Ht).
  pose proof Hm as Hm'. unfold lastMessage in Hm'.
  apply last_Some in Hm' as [l Hl].
  assert (Hmsg : messages (onerror es s) =
                 l ++ [set_msg_error MSG_CONNECT_FAILED
                         (set_msg_loading false m)]).
  { unfold onerror. cbn [messages emit].
    erewrite withLastAiMessage_snoc; [reflexivity|exact Hl|exact Ht]. }
  destruct (onerror_all_closed es s Hinv Ho) as [Hc Hlen].
  split; [exact Hc|].
  split; [unfold onerror; cbn [eventSource emit];
          now rewrite withLastAiMessage_eventSource|].
  split; [unfold onerror; cbn [loading emit];
          now rewrite withLastAiMessage_loading|].
  split.
  { exists l, m. split; [exact Hl|]. split; [exact Ht|].
    rewrite Hmsg. unfold set_msg_error, set_msg_loading.
    cbn [ChatMessage.id ChatMessage.type ChatMessage.content
         ChatMessage.timestamp ChatMessage.loading ChatMessage.error].
    rewrite Ht. reflexivity. }
  split; [exact MSG_CONNECT_FAILED_nonempty|].
  split.
  { unfold onerror. cbn [effects emit].
    rewrite withLastAiMessage_effects. cbn [effects set_loading
      set_eventSource close emit set_heap].
    rewrite <- !app_assoc. reflexivity. }
  split; [exact Hlen|].
  intros prev env Hsend Hes.
  assert (Hgrow : length (heap (handleSend env prev)) <> length (heap prev)).
  { rewrite Hsend. apply is_open_lt in Ho. lia. }
  pose proof (handleSend_opening_messages env prev Hgrow) as Hprev.
  rewrite Hsend in Hprev. rewrite Hprev in Hl.
  change [userMessage env prev; aiMessage env]
    with ([userMessage env prev] ++ [aiMessage env]) in Hl.
  rewrite app_assoc in Hl. apply app_inj_tail in Hl as [<- <-].
  rewrite Hmsg, <- app_assoc. reflexivity.
Qed.

Lemma transport_error_fails_session_witness :
  run (RT := example_runtime)
    [Select 5%Z; Input example_query; Send example_env] init
  = Some example_opened
  /\ is_open 0 example_opened = true
  /\ is_open 0 (onerror 0 example_opened) = false
  /\ loading (onerror 0 example_opened) = false
  /\ messages (onerror 0 example_opened) =
     [userMessage example_env example_ready;
      ChatMessage.mk (ai_id example_env) assistant []
        (ai_ts example_env) (Some false) (Some MSG_CONNECT_FAILED)].
Proof.
  assert (Hrun : run (RT := example_runtime)
                   [Select 5%Z; Input example_query; Send example_env] init
                 = Some example_opened) by (vm_compute; reflexivity).
  assert (Ho : is_open 0 example_opened = true) by (vm_compute; reflexivity).
  destruct (transport_error_fails_session (RT := example_runtime) _
              example_opened 0 Hrun Ho)
    as (Hc & _ & Hl & _ & _ & _ & _ & Hfirst).
  split; [exact Hrun|]. split; [exact Ho|].
  split; [apply Hc|]. split; [exact Hl|].
  apply (Hfirst example_ready example_env); vm_compute; reflexivity.
Defined.

(** ** Finalization by the handler *)

Lemma jsstring_eqb_eq a b : jsstring_eqb a b = true <-> a = b.
Proof.
  revert b. induction a as [|x a IH]; intros [|y b]; cbn; try easy.
  rewrite andb_true_iff, N.eqb_eq, IH. split.
  - intros [-> ->]. reflexivity.
  - intros [= -> ->]. auto.
Qed.

Section Finalization.
Context {RT : Runtime}.

(** A [content] that is absent or a string never makes the content
    branch throw. *)
Lemma onmessage_content_typed es d c s :
  (forall v, c = Some v -> exists t, v = JStr t) ->
  exists s1, onmessage_content es d c s = Normal s1.
Proof.
  intros Htyped. unfold onmessage_content.
  destruct c as [v|]; [|eauto].
  destruct (Htyped v eq_refl) as [t ->].
  destruct (truthy (Some (JStr t))); [|eauto].
  cbn [js_add]. eauto.
Qed.

Lemma onmessage_content_length es d c s s1 :
  onmessage_content es d c s = Normal s1 ->
  length (messages s1) = length (messages s).
Proof.
  unfold onmessage_content.
  destruct c as [c|]; [|now intros [= <-]].
  destruct (truthy (Some c)); [|now intros [= <-]].
  destruct (js_add _ c); [|discriminate]. intros [= <-].
  rewrite withLastAiMessage_length. reflexivity.
Qed.

Lemma onmessage_final_terminal es event d s m :
  truthy (is_final d) || jsstring_eqb (ev_type event) FINAL_RESULT = true ->
  only_current_open s ->
  is_open es s = true ->
  lastMessage s = Some m ->
  ChatMessage.type m = assistant ->
  let s' := onmessage_final es event d s in
  all_closed s' /\ eventSource s' = None /\ loading s' = false
  /\ lastMessage s' = Some (set_msg_loading false m)
  /\ length (heap s') = length (heap s)
  /\ effects s' = effects s ++ [es_close es].
Proof.
  intros Hcond Hinv Ho Hm Ht. cbv zeta. unfold onmessage_final.
  rewrite Hcond.
  split; [|split; [|split; [|split; [|split]]]].
  - intros h. unfold is_open. rewrite withLastAiMessage_heap.
    apply (close_current_all_closed es s Hinv (or_intror Ho) h).
  - now rewrite withLastAiMessage_eventSource.
  - now rewrite withLastAiMessage_loading.
  - apply lastMessage_withLastAiMessage; [exact Hm|exact Ht].
  - rewrite withLastAiMessage_heap. apply close_length.
  - rewrite withLastAiMessage_effects. reflexivity.
Qed.

End Finalization.

(** What the handler does with a terminal event once it runs on it.
    Let the view be in any reachable state in which the channel [es] is
    open, and let [onmessage] run on an event whose payload parses to a
    value other than [null] with a string (or no) [content], and which is
    terminal: its [is_final] is truthy, or its type is [final_result]
    whatever [is_final] says.  Afterwards every channel is closed, no
    handle is held, the loading flag is cleared, no [EventSource] was
    constructed, and the transcript has as many turns as before and ends
    with an assistant turn whose [loading] is [false]. *)
Theorem terminal_event_finalizes {RT : Runtime}
    (acts : list Action) (s : State) (es : nat) (event : MessageEvent)
    (d : JSValue JSNumber) :
  run acts init = Some s ->
  is_open es s = true ->
  JSON_parse (data event) = Some d ->
  d <> JNull ->
  (forall c, Get d KEY_CONTENT = Some (Some c) -> exists t, c = JStr t) ->
  truthy (is_final d) = true \/ ev_type event = FINAL_RESULT ->
  let s' := onmessage es event s in
  (forall h, is_open h s' = false)
  /\ eventSource s' = None
  /\ loading s' = false
  /\ length (heap s') = length (heap s)
  /\ length (messages s') = length (messages s)
  /\ exists m, lastMessage s' = Some m
               /\ ChatMessage.type m = assistant
               /\ ChatMessage.loading m = Some false.
Proof.
  intros Hrun Ho Hparse Hnull Htyped Hterm. cbv zeta.
  destruct (run_invariant acts init s init_only_current init_streaming Hrun)
    as [Hinv Hs].
  unfold onmessage, onmessage_try. rewrite Hparse.
  destruct (Get d KEY_CONTENT) as [c|] eqn:Hget;
    [|destruct d; try discriminate; now destruct Hnull].
  destruct (onmessage_content_typed es d c s) as [s1 E].
  { intros v ->. apply Htyped. reflexivity. }
  rewrite E. cbn [andThen].
  destruct (onmessage_content_effect es d _ s s1 (or_introl E))
    as (Hsame & Hl & Hlast).
  assert (Hinv1 : only_current_open s1)
    by (eapply same_channels_only_current; eauto).
  assert (Ho1 : is_open es s1 = true)
    by (destruct Hsame as [Hx _]; now rewrite Hx).
  destruct (Hs es Ho) as (_ & Hex).
  destruct (Hlast Hex) as (m1 & Hm1 & Ht1).
  assert (Hcond : truthy (is_final d)
                  || jsstring_eqb (ev_type event) FINAL_RESULT = true).
  { apply orb_true_iff. destruct Hterm as [H|H]; [left; exact H|right].
    now apply jsstring_eqb_eq. }
  destruct (onmessage_final_terminal es event d s1 m1
              Hcond Hinv1 Ho1 Hm1 Ht1)
    as (Hc & He & Hld & Hlm & Hlen & _).
  split; [exact Hc|]. split; [exact He|]. split; [exact Hld|].
  split; [destruct Hsame as (_ & Hlen1 & _); congruence|].
  split.
  - rewrite <- (onmessage_content_length es d _ s s1 E).
    unfold onmessage_final. rewrite Hcond.
    rewrite withLastAiMessage_length. reflexivity.
  - exists (set_msg_loading false m1). split; [exact Hlm|].
    split; [exact Ht1|reflexivity].
Qed.

Lemma terminal_event_finalizes_witness :
  let event := {| ev_type := FINAL_RESULT; data := payload_not_final |} in
  run (RT := example_runtime) example_run init = Some example_streaming
  /\ is_open 0 example_streaming = true
  /\ JSON_parse (Runtime := example_runtime) (data event)
     = Some (JObj [(KEY_IS_FINAL, JBool false)])
  /\ is_open 0 (onmessage (RT := example_runtime) 0 event example_streaming)
     = false
  /\ loading (onmessage (RT := example_runtime) 0 event example_streaming)
     = false.
Proof.
  cbv zeta.
  assert (Hrun : run (RT := example_runtime) example_run init
                 = Some example_streaming) by (vm_compute; reflexivity).
  assert (Ho : is_open 0 example_streaming = true)
    by (vm_compute; reflexivity).
  assert (Hp : JSON_parse (Runtime := example_runtime) payload_not_final
               = Some (JObj [(KEY_IS_FINAL, JBool false)]))
    by (vm_compute; reflexivity).
  destruct (terminal_event_finalizes (RT := example_runtime) example_run
              example_streaming 0
              {| ev_type := FINAL_RESULT; data := payload_not_final |}
              (JObj [(KEY_IS_FINAL, JBool false)]) Hrun Ho Hp)
    as (Hc & _ & Hl & _).
  - discriminate.
  - intros c Hcontent. vm_compute in Hcontent. discriminate.
  - right. reflexivity.
  - split; [exact Hrun|]. split; [exact Ho|]. split; [exact Hp|].
    split; [apply Hc|exact Hl].
Defined.

(** ** C3: the worked scenario *)

Lemma trim_example_query : trim example_query = example_query.
Proof. vm_compute. reflexivity. Qed.

Lemma is_open_lookup h s o :
  heap s !! h = Some o -> is_open h s = negb (closed o).
Proof. unfold is_open. now intros ->. Qed.

(** What a send that passes the guards and gets its [EventSource]
    leaves behind. *)
Lemma handleSend_started env s :
  str_truthy (trim (query s)) = true ->
  id_truthy (selectedConnectionId s) = true ->
  loading s = false ->
  is_Some (encodeURIComponent (trim (query s))) ->
  EventSource_ok env = true ->
  let s' := handleSend env s in
  messages s' = messages s ++ [userMessage env s; aiMessage env]
  /\ loading s' = true
  /\ exists o, heap s' !! length (heap s) = Some o
               /\ closed o = false /\ aiContent o = [].
Proof.
  intros Hq Hc Hl [q Hq'] Hok. cbv zeta. unfold handleSend.
  rewrite Hq, Hc, Hl, Hq'. cbn [negb].
  split; [|split].
  - erewrite handleSend_connect_messages
      with (l := messages s ++ [userMessage env s]) (m := aiMessage env);
      [|rewrite handleSend_enqueue_messages, <- app_assoc; reflexivity
       |reflexivity].
    rewrite Hok, <- app_assoc. reflexivity.
  - unfold handleSend_connect. rewrite Hok.
    cbn [loading set_eventSource newEventSource emit set_heap].
    rewrite closeCurrent_loading. reflexivity.
  - unfold handleSend_connect. rewrite Hok.
    cbn [heap set_eventSource newEventSource emit set_heap].
    eexists. split.
    { rewrite lookup_app_r by (rewrite closeCurrent_length; cbn; lia).
      rewrite closeCurrent_length.
      cbn [heap handleSend_enqueue set_currentSessionId set_loading
           set_query push set_messages].
      rewrite Nat.sub_diag. reflexivity. }
    split; reflexivity.
Qed.

Section Chunks.
Context {RT : Runtime}.

(** An ordinary event whose payload is [{content: t}] with [t] not empty:
    [t] is appended to the accumulated text, which becomes the text of the
    last assistant turn; the turn stays pending. *)
Lemma onmessage_text_chunk es event t s o l m :
  JSON_parse (data event) = Some (JObj [(KEY_CONTENT, JStr t)]) ->
  str_truthy t = true ->
  jsstring_eqb (ev_type event) FINAL_RESULT = false ->
  heap s !! es = Some o ->
  messages s = l ++ [m] ->
  ChatMessage.type m = assistant ->
  let s' := onmessage es event s in
  heap s' !! es = Some (set_aiContent (aiContent o ++ t) o)
  /\ messages s' =
     l ++ [set_msg_loading true (set_msg_content (aiContent o ++ t) m)]
  /\ loading s' = loading s.
Proof.
  intros Hparse Ht Hty Ho Hm Hrole. cbv zeta.
  assert (Hfin : assoc KEY_IS_FINAL [(KEY_CONTENT, JStr t)] = None)
    by reflexivity.
  assert (Hcont : assoc KEY_CONTENT [(KEY_CONTENT, JStr t)]
                  = Some (JStr t)) by reflexivity.
  unfold onmessage, onmessage_try. rewrite Hparse. cbn [Get].
  rewrite Hcont. unfold onmessage_content.
  cbn [truthy]. rewrite Ht. cbn [js_add andThen].
  unfold onmessage_final, is_final. cbn [Get]. rewrite Hfin.
  cbn [truthy orb negb]. rewrite Hty.
  unfold aiContent_of. rewrite Ho.
  erewrite withLastAiMessage_snoc; [|exact Hm|exact Hrole].
  cbn [heap messages loading set_messages set_heap].
  rewrite list_lookup_alter_eq, Ho. auto.
Qed.

(** An event whose payload is [{is_final: true}]: nothing is appended and
    the session is finalized. *)
Lemma onmessage_final_chunk es event s l m :
  JSON_parse (data event) = Some (JObj [(KEY_IS_FINAL, JBool true)]) ->
  messages s = l ++ [m] ->
  ChatMessage.type m = assistant ->
  let s' := onmessage es event s in
  messages s' = l ++ [set_msg_loading false m]
  /\ loading s' = false /\ eventSource s' = None
  /\ is_open es s' = false.
Proof.
  intros Hparse Hm Hrole. cbv zeta.
  assert (Hfin : assoc KEY_IS_FINAL [(KEY_IS_FINAL, JBool true)]
                 = Some (JBool true)) by reflexivity.
  assert (Hcont : assoc KEY_CONTENT [(KEY_IS_FINAL, JBool true)] = None)
    by reflexivity.
  unfold onmessage, onmessage_try. rewrite Hparse. cbn [Get].
  rewrite Hcont. unfold onmessage_content. cbn [andThen].
  unfold onmessage_final, is_final. cbn [Get]. rewrite Hfin.
  cbn [truthy orb].
  erewrite withLastAiMessage_snoc; [|exact Hm|exact Hrole].
  cbn [messages loading eventSource set_messages set_loading
       set_eventSource].
  repeat (split; [reflexivity|]).
  apply not_true_is_false. intros Hopen.
  change (is_open es (close es s) = true) in Hopen.
  apply is_open_close in Hopen as [_ Hne]. now apply Hne.
Qed.

End Chunks.

(** C3. Start a session with the query of the scenario on connection 5,
    from any state that is not loading, and let the [EventSource] be
    constructed.  Two turns are appended, a user turn and a pending
    assistant turn.  Then let three ordinary events arrive on the new
    channel with payloads [{content:"销"}], [{content:"售"}] and
    [{is_final:true}].  All three are dispatched, and at the end the
    transcript is the old one followed by the user turn with the query and
    an assistant turn with text ["销售"], [loading = false] and no error;
    the loading flag is cleared and the channel is closed. *)
Theorem scenario_sales_query {RT : Runtime}
    (s0 : State) (env : SendEnv) (e1 e2 e3 : MessageEvent) :
  query s0 = example_query ->
  selectedConnectionId s0 = Some 5%Z ->
  loading s0 = false ->
  EventSource_ok env = true ->
  ev_type e1 = js "message" ->
  ev_type e2 = js "message" ->
  JSON_parse (data e1) = Some (JObj [(KEY_CONTENT, JStr (js "销"))]) ->
  JSON_parse (data e2) = Some (JObj [(KEY_CONTENT, JStr (js "售"))]) ->
  JSON_parse (data e3) = Some (JObj [(KEY_IS_FINAL, JBool true)]) ->
  let es := length (heap s0) in
  exists s1 s,
    step (Send env) s0 = Some s1
    /\ messages s1 =
       messages s0 ++
         [ChatMessage.mk (user_id env) user example_query (user_ts env)
            None None;
          ChatMessage.mk (ai_id env) assistant [] (ai_ts env)
            (Some true) None]
    /\ run [Message es e1; Message es e2; Message es e3] s1 = Some s
    /\ messages s =
       messages s0 ++
         [ChatMessage.mk (user_id env) user example_query (user_ts env)
            None None;
          ChatMessage.mk (ai_id env) assistant (js "销售") (ai_ts env)
            (Some false) None]
    /\ loading s = false
    /\ is_open es s = false.
Proof.
  intros Hq Hc Hl Hok Ht1 Ht2 Hp1 Hp2 Hp3 es.
  assert (Hmsg : jsstring_eqb (js "message") FINAL_RESULT = false)
    by (vm_compute; reflexivity).
  destruct (handleSend_started env s0) as (Hm1 & _ & o1 & Ho1 & Hc1 & Ha1);
    try assumption.
  { rewrite Hq, trim_example_query. vm_compute. reflexivity. }
  { rewrite Hc. reflexivity. }
  { rewrite Hq, trim_example_query. vm_compute. eauto. }
  fold es in Ho1.
  assert (Hu : userMessage env s0 =
               ChatMessage.mk (user_id env) user example_query
                 (user_ts env) None None).
  { unfold userMessage. now rewrite Hq, trim_example_query. }
  rewrite Hu in Hm1.
  set (u := ChatMessage.mk (user_id env) user example_query (user_ts env)
              None None) in *.
  set (s1 := handleSend env s0) in *.
  change [u; aiMessage env] with ([u] ++ [aiMessage env]) in Hm1.
  rewrite app_assoc in Hm1.
  assert (Hty1 : jsstring_eqb (ev_type e1) FINAL_RESULT = false)
    by now rewrite Ht1.
  assert (Hty2 : jsstring_eqb (ev_type e2) FINAL_RESULT = false)
    by now rewrite Ht2.
  (* first chunk *)
  pose proof (onmessage_text_chunk es e1 (js "销") s1 o1
                (messages s0 ++ [u]) (aiMessage env)
                Hp1 eq_refl Hty1 Ho1 Hm1 eq_refl) as (Ho2 & Hm2 & _).
  set (s2 := onmessage es e1 s1) in *.
  (* second chunk *)
  pose proof (onmessage_text_chunk es e2 (js "售") s2 _
                (messages s0 ++ [u]) _
                Hp2 eq_refl Hty2 Ho2 Hm2 eq_refl) as (Ho3 & Hm3 & _).
  set (s3 := onmessage es e2 s2) in *.
  (* final chunk *)
  pose proof (onmessage_final_chunk es e3 s3 (messages s0 ++ [u]) _
                Hp3 Hm3 eq_refl) as (Hm4 & Hl4 & _ & Hc4).
  exists s1, (onmessage es e3 s3).
  split; [reflexivity|].
  split; [rewrite Hm1, <- app_assoc; reflexivity|].
  split.
  { cbn [run step].
    rewrite (is_open_lookup es s1 _ Ho1), Hc1. cbn [negb]. fold s2.
    rewrite (is_open_lookup es s2 _ Ho2). cbn [closed set_aiContent].
    rewrite Hc1. cbn [negb]. fold s3.
    rewrite (is_open_lookup es s3 _ Ho3). cbn [closed set_aiContent].
    rewrite Hc1. reflexivity. }
  split; [|split; [exact Hl4|exact Hc4]].
  rewrite Hm4, <- app_assoc. cbn [app]. do 3 f_equal.
  cbn [aiContent set_aiContent]. rewrite Ha1.
  unfold set_msg_loading, set_msg_content, aiMessage.
  cbn [ChatMessage.id ChatMessage.type ChatMessage.content
       ChatMessage.timestamp ChatMessage.loading ChatMessage.error].
  f_equal.
Qed.

Lemma scenario_sales_query_witness :
  exists s,
    run (RT := example_runtime)
      [Send example_env; Message 0 (example_chunk (js "销"));
       Message 0 (example_chunk (js "售"));
       Message 0 {| ev_type := js "message"; data := payload_final |}]
      example_ready = Some s
    /\ messages s =
       [ChatMessage.mk (user_id example_env) user example_query
          (user_ts example_env) None None;
        ChatMessage.mk (ai_id example_env) assistant (js "销售")
          (ai_ts example_env) (Some false) None]
    /\ loading s = false.
Proof.
  destruct (scenario_sales_query (RT := example_runtime) example_ready
              example_env (example_chunk (js "销")) (example_chunk (js "售"))
              {| ev_type := js "message"; data := payload_final |})
    as (s1 & s & Hstep & _ & Hrun & Hm & Hl & _);
    try (vm_compute; reflexivity).
  exists s. split; [|split; [exact Hm|exact Hl]].
  cbn [run]. cbn [run] in Hrun. rewrite Hstep. exact Hrun.
Defined.

(** ** C9: a failed fetch of the registry *)

Lemma withLastAiMessage_connections f s :
  connections (withLastAiMessage f s) = connections s.
Proof.
  unfold withLastAiMessage.
  destruct (lastMessage s) as [m|]; [|reflexivity].
  destruct (is_assistant _); reflexivity.
Qed.

Lemma closeCurrent_connections s :
  connections (closeCurrent s) = connections s.
Proof. unfold closeCurrent. destruct (eventSource s); reflexivity. Qed.

Lemma handleSend_connections env s :
  connections (handleSend env s) = connections s.
Proof.
  unfold handleSend.
  destruct (negb (str_truthy _)); [reflexivity|].
  destruct (negb (id_truthy _)); [reflexivity|].
  destruct (loading s); [reflexivity|].
  destruct (encodeURIComponent _); [|reflexivity].
  unfold handleSend_connect. destruct (EventSource_ok env).
  - cbn [connections set_eventSource newEventSource emit set_heap].
    now rewrite closeCurrent_connections.
  - rewrite withLastAiMessage_connections.
    cbn [connections emit set_loading].
    now rewrite closeCurrent_connections.
Qed.

Lemma handleClear_connections s :
  connections (handleClear s) = connections s.
Proof.
  unfold handleClear. cbn [connections set_loading eventSource set_messages].
  destruct (eventSource s); reflexivity.
Qed.

Lemma onerror_connections es s : connections (onerror es s) = connections s.
Proof.
  unfold onerror. cbn [connections emit].
  now rewrite withLastAiMessage_connections.
Qed.

Lemma onmessage_final_connections {RT : Runtime} es event d s :
  connections (onmessage_final es event d s) = connections s.
Proof.
  unfold onmessage_final. destruct (_ || _); [|reflexivity].
  now rewrite withLastAiMessage_connections.
Qed.

Lemma onmessage_connections {RT : Runtime} es event s :
  connections (onmessage es event s) = connections s.
Proof.
  unfold onmessage, onmessage_try.
  destruct (JSON_parse _) as [d|]; [|reflexivity].
  destruct (Get d KEY_CONTENT) as [c|]; [|reflexivity].
  unfold onmessage_content.
  destruct c as [c|]; [|apply onmessage_final_connections].
  destruct (truthy (Some c)); [|apply onmessage_final_connections].
  destruct (js_add _ c); [|reflexivity].
  cbn [andThen].
  now rewrite onmessage_final_connections, withLastAiMessage_connections.
Qed.

(** Only the settling of the fetch writes the registry. *)
Lemma step_connections {RT : Runtime} a s s' :
  is_Loaded a = false -> step a s = Some s' ->
  connections s' = connections s.
Proof.
  destruct a as [text|env| |v|res|es event|es| ]; cbn [is_Loaded step];
    intros Hl Hs; try discriminate Hl.
  - now injection Hs as <-.
  - injection Hs as <-. apply handleSend_connections.
  - injection Hs as <-. apply handleClear_connections.
  - injection Hs as <-. now rewrite handleClear_connections.
  - destruct (is_open es s); [|discriminate].
    injection Hs as <-. apply onmessage_connections.
  - destruct (is_open es s); [|discriminate].
    injection Hs as <-. apply onerror_connections.
  - injection Hs as <-. apply closeCurrent_connections.
Qed.

Lemma run_connections {RT : Runtime} acts s s' :
  fetch_pending acts = true -> run acts s = Some s' ->
  connections s' = connections s.
Proof.
  revert s. induction acts as [|a acts IH]; intros s Hp Hr.
  - now injection Hr as <-.
  - cbn [fetch_pending forallb] in Hp. apply andb_true_iff in Hp as [Ha Hp].
    apply negb_true_iff in Ha. cbn [run] in Hr.
    destruct (step a s) as [s1|] eqn:Hs; [|discriminate].
    rewrite (IH s1 Hp Hr). exact (step_connections a s s1 Ha Hs).
Qed.

(** C9. The view fetches the registry once, on mount.  Whatever the user
    does while that request is pending, the registry is still empty when
    it settles; when it is rejected, [loadConnections] logs, surfaces one
    error notice and returns normally, and afterwards the registry and the
    options of the select are empty.  Selection, input, transcript,
    channels and loading flag are as they were. *)
Theorem failed_fetch_on_mount_leaves_list_empty {RT : Runtime}
    (acts : list Action) (s : State) :
  fetch_pending acts = true ->
  run acts init = Some s ->
  let s' := onMounted None s in
  step (Loaded None) s = Some s'
  /\ connections s = []
  /\ connections s' = []
  /\ connectionOptions s' = []
  /\ effects s' =
     effects s ++ [console_error LOG_LOAD_FAILED;
                   message_error MSG_LOAD_FAILED]
  /\ selectedConnectionId s' = selectedConnectionId s
  /\ query s' = query s
  /\ messages s' = messages s /\ heap s' = heap s
  /\ eventSource s' = eventSource s /\ loading s' = loading s.
Proof.
  intros Hp Hr. cbv zeta.
  pose proof (run_connections acts init s Hp Hr) as Hc.
  change (connections init) with (@nil ConnSourceDTO.t) in Hc.
  destruct (loadConnections_failure_keeps_registry s)
    as (Hk & Hsel & Hm & Hh & He & Hl & Heff & _).
  unfold onMounted. cbn [step].
  split; [reflexivity|]. split; [exact Hc|].
  split; [now rewrite Hk|].
  split; [unfold connectionOptions; now rewrite Hk, Hc|].
  split; [exact Heff|]. split; [exact Hsel|].
  split; [reflexivity|]. auto.
Qed.

Lemma failed_fetch_on_mount_leaves_list_empty_witness :
  run (RT := example_runtime) example_early_run init = Some example_early
  /\ effects example_early = [message_warning MSG_NO_CONNECTION]
  /\ connections (onMounted None example_early) = []
  /\ effects (onMounted None example_early) =
     [message_warning MSG_NO_CONNECTION; console_error LOG_LOAD_FAILED;
      message_error MSG_LOAD_FAILED].
Proof.
  assert (Hrun : run (RT := example_runtime) example_early_run init
                 = Some example_early) by (vm_compute; reflexivity).
  destruct (failed_fetch_on_mount_leaves_list_empty (RT := example_runtime)
              example_early_run example_early eq_refl Hrun)
    as (_ & _ & Hc & _ & He & _).
  split; [exact Hrun|]. split; [vm_compute; reflexivity|].
  split; [exact Hc|]. rewrite He. vm_compute. reflexivity.
Defined.

(** ** C4: terminal events of the final kind *)

(** An event of a type other than [message] runs no handler. *)
Lemma dispatchEvent_unlistened {RT : Runtime} es event s :
  ev_type event <> MESSAGE -> dispatchEvent es event s = s.
Proof.
  intros Hne. unfold dispatchEvent.
  destruct (jsstring_eqb (ev_type event) MESSAGE) eqn:E.
  - apply jsstring_eqb_eq in E. contradiction.
  - now rewrite andb_false_r.
Qed.

(** An event of type [message] on an open channel runs [onmessage]. *)
Lemma dispatchEvent_message {RT : Runtime} es event s :
  is_open es s = true -> ev_type event = MESSAGE ->
  dispatchEvent es event s = onmessage es event s.
Proof.
  intros Ho Ht. unfold dispatchEvent. rewrite Ho, Ht.
  now rewrite (proj2 (jsstring_eqb_eq MESSAGE MESSAGE) eq_refl).
Qed.

(** C4.  The code does not finalize on an event of the final kind.  Take
    the view in the middle of a stream, one chunk received, channel 0
    open, and let the stream deliver an event of type [final_result] with
    the payload [{"is_final":false}].  No listener of the view is
    registered for that type, so the test of line 115 never sees it: the
    view is exactly as before, the channel still open, its handle still
    held, the loading flag still set and the assistant turn still pending.
    And were the handler run on an event of that type, it would reach the
    test only after parsing the payload: on the payload [[DONE]] it logs
    and leaves the channel open and the loading flag set. *)
Theorem final_result_event_does_not_finalize :
  let event := {| ev_type := FINAL_RESULT; data := payload_not_final |} in
  let s' := dispatchEvent (RT := example_runtime) 0 event example_streaming in
  let bare := {| ev_type := FINAL_RESULT; data := payload_done |} in
  let s'' := onmessage (RT := example_runtime) 0 bare example_streaming in
  run (RT := example_runtime) example_run init = Some example_streaming
  /\ is_open 0 example_streaming = true
  /\ s' = example_streaming
  /\ is_open 0 s' = true
  /\ eventSource s' = Some 0
  /\ loading s' = true
  /\ (exists m, lastMessage s' = Some m
                /\ ChatMessage.type m = assistant
                /\ ChatMessage.loading m = Some true)
  /\ s'' = emit (console_error LOG_PARSE_FAILED) example_streaming
  /\ is_open 0 s'' = true
  /\ loading s'' = true.
Proof.
  cbv zeta.
  rewrite (dispatchEvent_unlistened (RT := example_runtime) 0
             {| ev_type := FINAL_RESULT; data := payload_not_final |}
             example_streaming)
    by (vm_compute; discriminate).
  split; [vm_compute; reflexivity|].
  split; [vm_compute; reflexivity|].
  split; [reflexivity|].
  split; [vm_compute; reflexivity|].
  split; [vm_compute; reflexivity|].
  split; [vm_compute; reflexivity|].
  split; [eexists; split; [vm_compute; reflexivity|]; split; reflexivity|].
  split; [vm_compute; reflexivity|].
  split; vm_compute; reflexivity.
Qed.

(** * Further properties *)

(** ** Trimming *)

Lemma trimStart_head s c t :
  trimStart s = c :: t -> isWhiteSpace c = false.
Proof.
  induction s as [|x s IH]; cbn [trimStart]; [discriminate|].
  destruct (isWhiteSpace x) eqn:E; [exact IH|].
  intros [= <- <-]. exact E.
Qed.

Lemma trimStart_keeps c t :
  isWhiteSpace c = false -> trimStart (c :: t) = c :: t.
Proof. intros H. cbn [trimStart]. now rewrite H. Qed.

Lemma trimStart_snoc l c :
  isWhiteSpace c = false -> trimStart (l ++ [c]) = trimStart l ++ [c].
Proof.
  intros H. induction l as [|x l IH]; cbn [app trimStart].
  - now rewrite H.
  - destruct (isWhiteSpace x); [exact IH|reflexivity].
Qed.

Lemma trimStart_idem s : trimStart (trimStart s) = trimStart s.
Proof.
  destruct (trimStart s) as [|c t] eqn:E; [reflexivity|].
  apply trimStart_keeps. eapply trimStart_head, E.
Qed.

(** The shape of a trimmed string: empty, or delimited by two code units
    that are not white space. *)
Lemma trim_shape s :
  trim s = []
  \/ exists c t, isWhiteSpace c = false
                 /\ trim s = c :: rev (trimStart (rev t)).
Proof.
  unfold trim. destruct (trimStart s) as [|c t] eqn:E; [left; reflexivity|].
  right. exists c, t. pose proof (trimStart_head s c t E) as Hc.
  split; [exact Hc|]. cbn [rev].
  rewrite trimStart_snoc by exact Hc. rewrite rev_app_distr. reflexivity.
Qed.

Lemma trim_idem s : trim (trim s) = trim s.
Proof.
  destruct (trim_shape s) as [->|(c & t & Hc & ->)]; [reflexivity|].
  unfold trim. rewrite trimStart_keeps by exact Hc. cbn [rev].
  rewrite rev_involutive, trimStart_snoc by exact Hc.
  rewrite trimStart_idem, rev_app_distr. reflexivity.
Qed.

Lemma trim_first s c t : trim s = c :: t -> isWhiteSpace c = false.
Proof.
  destruct (trim_shape s) as [->|(c' & t' & Hc & ->)]; [discriminate|].
  now intros [= <- _].
Qed.

Lemma trim_last s l c : trim s = l ++ [c] -> isWhiteSpace c = false.
Proof.
  unfold trim. intros H.
  apply (f_equal (@rev N)) in H.
  rewrite rev_involutive, rev_app_distr in H. cbn [rev app] in H.
  eapply trimStart_head, H.
Qed.

Lemma str_truthy_nonempty s : str_truthy s = true <-> s <> [].
Proof. destruct s; cbn; split; congruence. Qed.

(** ** The outcomes of handleSend *)

Lemma handleSend_outcome env s :
  let s' := handleSend env s in
  ((str_truthy (trim (query s)) = false
    \/ id_truthy (selectedConnectionId s) = false
    \/ loading s = true)
   /\ heap s' = heap s /\ eventSource s' = eventSource s
   /\ loading s' = loading s /\ messages s' = messages s)
  \/ (str_truthy (trim (query s)) = true
      /\ id_truthy (selectedConnectionId s) = true
      /\ loading s = false
      /\ ((encodeURIComponent (trim (query s)) = None
           /\ s' = emit (uncaught URI_ERROR) (handleSend_enqueue env s))
          \/ (exists q,
                encodeURIComponent (trim (query s)) = Some q
                /\ s' = handleSend_connect env (sseUrl_of env s q)
                          (handleSend_enqueue env s)))).
Proof.
  cbv zeta. unfold handleSend.
  destruct (str_truthy (trim (query s))) eqn:Hq; cbn [negb];
    [|left; repeat split; auto].
  destruct (id_truthy (selectedConnectionId s)) eqn:Hc; cbn [negb];
    [|left; repeat split; auto].
  destruct (loading s) eqn:Hl; [left; repeat split; auto|].
  right. repeat (split; [reflexivity|]).
  destruct (encodeURIComponent (trim (query s))) as [q|].
  - right. exists q. split; reflexivity.
  - left. split; reflexivity.
Qed.

Lemma userMessage_user_turn env s :
  str_truthy (trim (query s)) = true -> user_turn (userMessage env s).
Proof.
  intros Hq. unfold user_turn, userMessage.
  cbn [ChatMessage.type ChatMessage.content ChatMessage.loading
       ChatMessage.error].
  repeat split; [now apply str_truthy_nonempty|apply trim_idem].
Qed.

(** ** How each step changes the transcript *)

Lemma last_snoc_inv {A} (l l' : list A) (m m' : A) :
  l ++ [m] = l' ++ [m'] -> l = l' /\ m = m'.
Proof. apply app_inj_tail. Qed.

Lemma lastMessage_split s m :
  lastMessage s = Some m -> exists l, messages s = l ++ [m].
Proof. unfold lastMessage. intros H. now apply last_Some in H. Qed.

Lemma handleSend_transcript env s :
  only_current_open s ->
  transcript_step s (handleSend env s).
Proof.
  intros Hinv.
  destruct (handleSend_outcome env s)
    as [(_ & Hh & _ & Hl & Hm)|(Hq & Hc & Hl & [[Henc ->]|(q & Henc & ->)])].
  - apply ts_keep; auto.
  - apply (ts_append _ _ (userMessage env s) (aiMessage env));
      [exact Hl|now apply userMessage_user_turn|reflexivity|reflexivity
      |apply handleSend_enqueue_messages|].
    left. split; [reflexivity|]. split; [reflexivity|]. left. reflexivity.
  - assert (Hinv' : only_current_open (handleSend_enqueue env s)).
    { eapply same_channels_only_current;
        [apply handleSend_enqueue_same_channels|exact Hinv]. }
    destruct (EventSource_ok env) eqn:Hok.
    + destruct (handleSend_connect_ok env (sseUrl_of env s q) _ Hok Hinv')
        as (Ho & Hload & Hmsg & _).
      apply (ts_append _ _ (userMessage env s) (aiMessage env));
        [exact Hl|now apply userMessage_user_turn|reflexivity|reflexivity
        |rewrite Hmsg; apply handleSend_enqueue_messages|].
      left. split; [reflexivity|]. split; [rewrite Hload; reflexivity|].
      right. split; [exact Ho|].
      unfold aiContent_of, handleSend_connect. rewrite Hok.
      cbn [heap set_eventSource newEventSource emit set_heap].
      rewrite lookup_app_r by (rewrite closeCurrent_length; cbn; lia).
      rewrite closeCurrent_length.
      cbn [heap handleSend_enqueue set_currentSessionId set_loading
           set_query push set_messages].
      rewrite Nat.sub_diag. reflexivity.
    + destruct (handleSend_connect_failed env (sseUrl_of env s q) _ Hok Hinv')
        as (Hc' & _).
      apply (ts_append _ _ (userMessage env s)
               (set_msg_error MSG_SEND_FAILED
                  (set_msg_loading false (aiMessage env))));
        [exact Hl|now apply userMessage_user_turn|reflexivity|reflexivity| |].
      * erewrite handleSend_connect_messages
          with (l := messages s ++ [userMessage env s]) (m := aiMessage env);
          [|rewrite handleSend_enqueue_messages, <- app_assoc; reflexivity
           |reflexivity].
        rewrite Hok, <- app_assoc. reflexivity.
      * right. split; [unfold pending; cbn; discriminate|].
        split; [|exact Hc'].
        unfold handleSend_connect. rewrite Hok.
        now rewrite withLastAiMessage_loading.
Qed.

Section TranscriptSteps.
Context {RT : Runtime}.

Lemma onmessage_transcript es event s :
  only_current_open s -> open_means_streaming s ->
  is_open es s = true ->
  transcript_step s (onmessage es event s).
Proof.
  intros Hinv Hs Ho.
  destruct (Hs es Ho) as (Hload & m & Hm & Ht).
  destruct (lastMessage_split s m Hm) as [l Hl].
  assert (Hcur : forall h, is_open h s = true -> h = es).
  { intros h Hh. destruct (Hinv h Hh) as [E1 _].
    destruct (Hinv es Ho) as [E2 _]. congruence. }
  unfold onmessage, onmessage_try.
  destruct (JSON_parse (data event)) as [d|];
    [|apply ts_keep; auto].
  destruct (Get d KEY_CONTENT) as [c|]; [|apply ts_keep; auto].
  (* the content branch: the state and the last turn it leaves *)
  assert (Hcontent :
    (onmessage_content es d c s = Throw s)
    \/ (onmessage_content es d c s = Normal s)
    \/ (exists acc,
          onmessage_content es d c s =
          Normal (set_messages
                    (l ++ [set_msg_loading (negb (truthy (is_final d)))
                             (set_msg_content acc m)])
                    (set_heap (alter (set_aiContent acc) es (heap s)) s)))).
  { unfold onmessage_content.
    destruct c as [c|]; [|auto].
    destruct (truthy (Some c)); [|auto].
    destruct (js_add (aiContent_of es s) c) as [acc|]; [|auto].
    right; right. exists acc.
    erewrite withLastAiMessage_snoc; [reflexivity|exact Hl|exact Ht]. }
  assert (Hfinal : forall s1 m1,
    messages s1 = l ++ [m1] -> ChatMessage.type m1 = assistant ->
    only_current_open s1 -> is_open es s1 = true ->
    truthy (is_final d) || jsstring_eqb (ev_type event) FINAL_RESULT = true ->
    messages (onmessage_final es event d s1)
      = l ++ [set_msg_loading false m1]
    /\ loading (onmessage_final es event d s1) = false
    /\ all_closed (onmessage_final es event d s1)).
  { intros s1 m1 Hm1 Ht1 Hinv1 Ho1 Hcond.
    assert (Hlast1 : lastMessage s1 = Some m1)
      by (unfold lastMessage; rewrite Hm1; apply last_snoc).
    destruct (onmessage_final_terminal es event d s1 m1 Hcond Hinv1 Ho1
                Hlast1 Ht1) as (Hc & _ & Hld & _).
    split; [|split; [exact Hld|exact Hc]].
    unfold onmessage_final. rewrite Hcond.
    erewrite withLastAiMessage_snoc; [reflexivity|exact Hm1|exact Ht1]. }
  destruct Hcontent as [E|[E|(acc & E)]]; rewrite E; cbn [andThen].
  - apply ts_keep; auto.
  - destruct (truthy (is_final d)
              || jsstring_eqb (ev_type event) FINAL_RESULT) eqn:Hcond.
    + destruct (Hfinal s m Hl Ht Hinv Ho eq_refl) as (Hm' & Hl' & Hc').
      apply (ts_update _ _ l m (set_msg_loading false m)); auto.
      right. split; [unfold pending; cbn; discriminate|auto].
    + unfold onmessage_final. rewrite Hcond. apply ts_keep; auto.
  - set (m1 := set_msg_loading (negb (truthy (is_final d)))
                 (set_msg_content acc m)).
    set (s1 := set_messages (l ++ [m1])
                 (set_heap (alter (set_aiContent acc) es (heap s)) s)).
    assert (Hsame : same_channels s s1).
    { split; [intros h; apply is_open_set_aiContent|].
      split; [apply length_alter|reflexivity]. }
    destruct (truthy (is_final d)
              || jsstring_eqb (ev_type event) FINAL_RESULT) eqn:Hcond.
    + assert (Hinv1 : only_current_open s1)
        by (eapply same_channels_only_current; eauto).
      assert (Ho1 : is_open es s1 = true)
        by (destruct Hsame as [Hx _]; now rewrite Hx).
      destruct (Hfinal s1 m1 eq_refl Ht Hinv1 Ho1 eq_refl)
        as (Hm' & Hl' & Hc').
      apply (ts_update _ _ l m (set_msg_loading false m1)); auto.
      right. split; [unfold pending; cbn; discriminate|auto].
    + unfold onmessage_final. rewrite Hcond.
      apply orb_false_iff in Hcond as [Hfin _].
      apply (ts_update _ _ l m m1); auto.
      left. split; [unfold pending, m1; cbn; now rewrite Hfin|].
      split; [exact Hload|]. split; [exact Hsame|].
      intros h Hh. rewrite (Hcur h Hh).
      unfold aiContent_of, s1. cbn [heap set_messages set_heap].
      rewrite list_lookup_alter_eq.
      unfold is_open in Ho. destruct (heap s !! es); [reflexivity|discriminate].
Qed.

Lemma onerror_transcript es s :
  only_current_open s -> open_means_streaming s ->
  is_open es s = true ->
  transcript_step s (onerror es s).
Proof.
  intros Hinv Hs Ho.
  destruct (Hs es Ho) as (_ & m & Hm & Ht).
  destruct (lastMessage_split s m Hm) as [l Hl].
  destruct (onerror_all_closed es s Hinv Ho) as [Hc _].
  apply (ts_update _ _ l m
           (set_msg_error MSG_CONNECT_FAILED (set_msg_loading false m)));
    [exact Hl| |exact Ht|exact Ht|].
  - unfold onerror. cbn [messages emit].
    erewrite withLastAiMessage_snoc; [reflexivity|exact Hl|exact Ht].
  - right. split; [unfold pending; cbn; discriminate|].
    split; [|exact Hc].
    unfold onerror. cbn [loading emit].
    now rewrite withLastAiMessage_loading.
Qed.

Lemma step_transcript a s s' :
  only_current_open s -> open_means_streaming s ->
  step a s = Some s' -> transcript_step s s'.
Proof.
  intros Hinv Hs. destruct a as [text|env| |v|res|es event|es|]; cbn [step].
  - intros [= <-]. apply ts_keep; auto.
  - intros [= <-]. apply handleSend_transcript, Hinv.
  - intros [= <-]. apply ts_clear;
      [|reflexivity|apply handleClear_all_closed, Hinv].
    unfold handleClear. cbn [eventSource set_messages].
    destruct (eventSource s); reflexivity.
  - intros [= <-]. apply ts_clear;
      [|reflexivity|apply handleClear_all_closed; exact Hinv].
    unfold handleClear. cbn [eventSource set_messages
      set_selectedConnectionId].
    destruct (eventSource s); reflexivity.
  - intros [= <-]. unfold loadConnections.
    destruct res as [items|]; [|apply ts_keep; auto].
    cbn [connections set_connections].
    destruct (List.filter _ items); [apply ts_keep; auto|].
    destruct (negb _); apply ts_keep; auto.
  - destruct (is_open es s) eqn:Ho; [|discriminate]. intros [= <-].
    apply onmessage_transcript; assumption.
  - destruct (is_open es s) eqn:Ho; [|discriminate]. intros [= <-].
    apply onerror_transcript; assumption.
  - intros [= <-]. apply ts_keep;
      [apply closeCurrent_messages|apply closeCurrent_loading|].
    right. apply closeCurrent_all_closed, Hinv.
Qed.

End TranscriptSteps.

(** ** Invariants of the transcript in every reachable state *)

Lemma paired_update l m m' :
  paired (l ++ [m]) -> ChatMessage.type m' = assistant ->
  paired (l ++ [m']).
Proof.
  intros H Ht. inversion H as [E|l0 u a Hp Hu Ha E].
  - now destruct l.
  - change [u; a] with ([u] ++ [a]) in E. rewrite app_assoc in E.
    apply app_inj_tail in E as [<- <-].
    rewrite <- app_assoc. apply paired_snoc; assumption.
Qed.

Lemma idle_transcript s :
  loading s = false -> spinner_last_only s ->
  Forall (fun x => ~ pending x) (messages s).
Proof.
  intros Hl [Hnon Hlast].
  destruct (decide (messages s = [])) as [->|Hne]; [constructor|].
  apply last_is_Some in Hne as [m Hm].
  destruct (lastMessage_split s m Hm) as [l El]. rewrite El.
  apply Forall_app. split; [eapply Hnon, El|].
  constructor; [|constructor]. intros Hp.
  assert (loading s = true) by (apply Hlast; eauto). congruence.
Qed.

Lemma is_open_same_heap s s' h :
  heap s' = heap s -> is_open h s' = is_open h s.
Proof. unfold is_open. now intros ->. Qed.

Lemma transcript_step_invariant s s' :
  open_means_streaming s ->
  transcript_step s s' ->
  paired (messages s) -> spinner_last_only s -> text_in_sync s ->
  paired (messages s') /\ spinner_last_only s' /\ text_in_sync s'.
Proof.
  intros Hs Hstep Hp Hsp Hsync.
  destruct Hstep as [Hm Hl Hh|Hm Hl Hc|u a Hl Hu Ha Hca Hm Hk
                     |l m m' Hm Hm' Ht Ht' Hk].
  - (* nothing changes but, possibly, channels closing *)
    split; [now rewrite Hm|]. split.
    + destruct Hsp as [Hnon Hlast]. split.
      * intros l m E. rewrite Hm in E. eauto.
      * rewrite Hl, (lastMessage_same _ _ Hm). exact Hlast.
    + intros h Hh'. destruct Hh as [Hh|Hc].
      * rewrite (is_open_same_heap _ _ h Hh) in Hh'.
        destruct (Hsync h Hh') as (m & Hlm & Hcm).
        exists m. rewrite (lastMessage_same _ _ Hm).
        split; [exact Hlm|]. unfold aiContent_of in *. now rewrite Hh.
      * rewrite Hc in Hh'. discriminate.
  - (* the transcript is emptied *)
    split; [rewrite Hm; constructor|]. split.
    + split.
      * intros l m E. rewrite Hm in E. now destruct l.
      * rewrite Hl. unfold lastMessage. rewrite Hm. cbn.
        split; [discriminate|intros (m & [=] & _)].
    + intros h Hh. rewrite Hc in Hh. discriminate.
  - (* a question and its placeholder are appended *)
    assert (Hlast' : lastMessage s' = Some a).
    { unfold lastMessage. rewrite Hm.
      change [u; a] with ([u] ++ [a]). rewrite app_assoc. apply last_snoc. }
    split; [rewrite Hm; now apply paired_snoc|]. split.
    + split.
      * intros l m E. rewrite Hm in E.
        change [u; a] with ([u] ++ [a]) in E. rewrite app_assoc in E.
        apply app_inj_tail in E as [<- <-].
        apply Forall_app. split; [now apply idle_transcript|].
        constructor; [|constructor].
        destruct Hu as (_ & _ & _ & Hul & _). unfold pending. congruence.
      * rewrite Hlast'.
        destruct Hk as [(Hpa & -> & _)|(Hpa & -> & _)].
        -- split; [eauto|reflexivity].
        -- split; [discriminate|]. intros (m & [= <-] & Hpm). contradiction.
    + intros h Hh. exists a. split; [exact Hlast'|]. rewrite Hca.
      destruct Hk as [(_ & _ & [Hheap|[Hop Hai]])|(_ & _ & Hc)].
      * rewrite (is_open_same_heap _ _ h Hheap) in Hh.
        destruct (Hs h Hh) as [Hload _]. congruence.
      * destruct Hop as (Hiff & _). apply Hiff in Hh. subst h.
        now rewrite Hai.
      * rewrite Hc in Hh. discriminate.
  - (* the last turn is updated *)
    assert (Hlast' : lastMessage s' = Some m').
    { unfold lastMessage. rewrite Hm'. apply last_snoc. }
    split; [rewrite Hm'; rewrite Hm in Hp; eapply paired_update; eauto|].
    split.
    + split.
      * intros l2 m2 E. rewrite Hm' in E.
        apply app_inj_tail in E as [<- <-].
        destruct Hsp as [Hnon _]. eapply Hnon, Hm.
      * rewrite Hlast'.
        destruct Hk as [(Hpm & -> & _)|(Hpm & -> & _)].
        -- split; [eauto|reflexivity].
        -- split; [discriminate|]. intros (x & [= <-] & Hpx). contradiction.
    + intros h Hh. exists m'. split; [exact Hlast'|].
      destruct Hk as [(_ & _ & (Hopen & _) & Hai)|(_ & _ & Hc)].
      * rewrite Hopen in Hh. symmetry. apply Hai, Hh.
      * rewrite Hc in Hh. discriminate.
Qed.

Section ReachableTranscripts.
Context {RT : Runtime}.

(** All five invariants hold along every run that starts in a state
    where they hold. *)
Lemma run_view_invariant acts s s' :
  only_current_open s -> open_means_streaming s ->
  paired (messages s) -> spinner_last_only s -> text_in_sync s ->
  run acts s = Some s' ->
  only_current_open s' /\ open_means_streaming s'
  /\ paired (messages s') /\ spinner_last_only s' /\ text_in_sync s'.
Proof.
  revert s. induction acts as [|a acts IH];
    intros s Hinv Hs Hp Hsp Hsync; cbn [run].
  - intros [= <-]. auto.
  - destruct (step a s) as [s1|] eqn:E; [|discriminate].
    destruct (transcript_step_invariant s s1 Hs
                (step_transcript a s s1 Hinv Hs E) Hp Hsp Hsync)
      as (Hp1 & Hsp1 & Hsync1).
    apply IH; auto.
    + eapply step_only_current; eauto.
    + eapply step_streaming; eauto.
Qed.

Lemma init_spinner : spinner_last_only init.
Proof.
  split.
  - intros l m E. now destruct l.
  - cbn. split; [discriminate|intros (m & [=] & _)].
Qed.

Lemma init_sync : text_in_sync init.
Proof. intros h Hh. destruct h; discriminate. Qed.

Lemma reachable_invariant acts s :
  run acts init = Some s ->
  only_current_open s /\ open_means_streaming s
  /\ paired (messages s) /\ spinner_last_only s /\ text_in_sync s.
Proof.
  apply run_view_invariant;
    auto using init_only_current, init_streaming, init_spinner, init_sync,
      paired_nil.
Qed.


End ReachableTranscripts.

(** ** An open channel and the state of the view *)

(** In every reachable state, an open channel is the one held in
    [eventSource]; the view is then loading, its input is disabled, and
    the transcript ends with an assistant turn. *)
Theorem open_channel_means_loading {RT : Runtime}
    (acts : list Action) (s : State) (h : nat) :
  run acts init = Some s ->
  is_open h s = true ->
  eventSource s = Some h
  /\ loading s = true
  /\ inputDisabled s = true
  /\ exists m, lastMessage s = Some m /\ ChatMessage.type m = assistant.
Proof.
  intros Hrun Ho.
  destruct (reachable_invariant acts s Hrun) as (Hinv & Hs & _).
  destruct (Hinv h Ho) as [He _]. destruct (Hs h Ho) as [Hl Hm].
  unfold inputDisabled. rewrite Hl. auto.
Qed.

Lemma open_channel_means_loading_witness :
  run (RT := example_runtime) example_run init = Some example_streaming
  /\ is_open 0 example_streaming = true
  /\ loading example_streaming = true
  /\ inputDisabled example_streaming = true.
Proof.
  assert (Hrun : run (RT := example_runtime) example_run init
                 = Some example_streaming) by (vm_compute; reflexivity).
  assert (Ho : is_open 0 example_streaming = true)
    by (vm_compute; reflexivity).
  destruct (open_channel_means_loading (RT := example_runtime) example_run
              example_streaming 0 Hrun Ho) as (_ & Hl & Hd & _).
  auto.
Defined.

(** In every reachable state with an open channel, the text of the last
    turn is exactly the text accumulated from the chunks of that
    channel. *)
Theorem shown_text_is_accumulated_text {RT : Runtime}
    (acts : list Action) (s : State) (h : nat) :
  run acts init = Some s ->
  is_open h s = true ->
  exists m, lastMessage s = Some m
            /\ ChatMessage.type m = assistant
            /\ ChatMessage.content m = aiContent_of h s.
Proof.
  intros Hrun Ho.
  destruct (reachable_invariant acts s Hrun) as (_ & Hs & _ & _ & Hsync).
  destruct (Hsync h Ho) as (m & Hm & Hc).
  destruct (Hs h Ho) as (_ & m' & Hm' & Ht).
  exists m. split; [exact Hm|]. split; [congruence|exact Hc].
Qed.

Lemma shown_text_is_accumulated_text_witness :
  run (RT := example_runtime) example_run init = Some example_streaming
  /\ is_open 0 example_streaming = true
  /\ aiContent_of 0 example_streaming = js "销"
  /\ exists m, lastMessage example_streaming = Some m
               /\ ChatMessage.content m = js "销".
Proof.
  assert (Hrun : run (RT := example_runtime) example_run init
                 = Some example_streaming) by (vm_compute; reflexivity).
  assert (Ho : is_open 0 example_streaming = true)
    by (vm_compute; reflexivity).
  assert (Ha : aiContent_of 0 example_streaming = js "销")
    by (vm_compute; reflexivity).
  destruct (shown_text_is_accumulated_text (RT := example_runtime)
              example_run example_streaming 0 Hrun Ho) as (m & Hm & _ & Hc).
  split; [exact Hrun|]. split; [exact Ho|]. split; [exact Ha|].
  exists m. split; [exact Hm|]. now rewrite Hc.
Defined.

(** ** The spinner *)

Lemma render_spinner m : render m = Spinner <-> pending m.
Proof.
  unfold render, pending.
  destruct (ChatMessage.loading m) as [[|]|]; [tauto| |];
    (split; [|discriminate]);
    destruct (ChatMessage.error m) as [e|]; try discriminate;
    destruct (str_truthy e); discriminate.
Qed.

Lemma paired_last l :
  paired l -> l <> [] ->
  exists l0 a, l = l0 ++ [a] /\ ChatMessage.type a = assistant.
Proof.
  intros [|l0 u a _ _ Ha] Hne; [congruence|].
  exists (l0 ++ [u]), a. rewrite <- app_assoc. auto.
Qed.

(** In every reachable state the spinner is shown on at most one turn:
    a turn that renders as the spinner is the last turn of the
    transcript, it is an assistant turn, and the view is loading;
    conversely, while the view is loading the last turn renders as the
    spinner. *)
Theorem spinner_only_on_last_turn {RT : Runtime}
    (acts : list Action) (s : State) :
  run acts init = Some s ->
  (forall i m,
     messages s !! i = Some m -> render m = Spinner ->
     S i = length (messages s) /\ ChatMessage.type m = assistant
     /\ loading s = true)
  /\ (loading s = true ->
      exists m, lastMessage s = Some m /\ render m = Spinner).
Proof.
  intros Hrun.
  destruct (reachable_invariant acts s Hrun)
    as (_ & _ & Hp & (Hnon & Hlast) & _).
  split.
  - intros i m Hi Hr. apply render_spinner in Hr.
    assert (Hne : messages s <> []) by (intros E; rewrite E in Hi; easy).
    destruct (paired_last _ Hp Hne) as (l0 & a & El & Ha).
    specialize (Hnon l0 a El). rewrite El in Hi |- *.
    rewrite length_app. cbn [length].
    destruct (decide (i < length l0)) as [Hlt|Hge].
    + rewrite lookup_app_l in Hi by exact Hlt.
      rewrite Forall_forall in Hnon.
      exfalso. apply (Hnon m); [|exact Hr].
      eapply list_elem_of_lookup_2, Hi.
    + rewrite lookup_app_r in Hi by lia.
      destruct (i - length l0) as [|k] eqn:Ek; [|destruct k; discriminate].
      injection Hi as <-. split; [lia|]. split; [exact Ha|].
      apply Hlast. exists a. split; [|exact Hr].
      unfold lastMessage. rewrite El. apply last_snoc.
  - intros Hl. apply Hlast in Hl as (m & Hm & Hpm).
    exists m. split; [exact Hm|now apply render_spinner].
Qed.

Lemma spinner_only_on_last_turn_witness :
  run (RT := example_runtime) example_run init = Some example_streaming
  /\ length (messages example_streaming) = 2
  /\ exists m, messages example_streaming !! 1 = Some m
               /\ render m = Spinner.
Proof.
  assert (Hrun : run (RT := example_runtime) example_run init
                 = Some example_streaming) by (vm_compute; reflexivity).
  destruct (spinner_only_on_last_turn (RT := example_runtime) example_run
              example_streaming Hrun) as (_ & Hlast).
  destruct (Hlast eq_refl) as (m & Hm & Hr).
  split; [exact Hrun|]. split; [reflexivity|].
  exists m. split; [|exact Hr].
  rewrite <- Hm. unfold lastMessage. rewrite last_lookup. reflexivity.
Defined.

(** ** Questions and answers alternate *)

Lemma paired_even l : paired l -> Nat.even (length l) = true.
Proof.
  induction 1 as [|l u a _ IH _ _]; [reflexivity|].
  rewrite length_app. cbn [length]. rewrite Nat.add_comm. exact IH.
Qed.

Lemma paired_lookup l :
  paired l ->
  forall i m, l !! i = Some m ->
    if Nat.even i then user_turn m else ChatMessage.type m = assistant.
Proof.
  induction 1 as [|l u a Hp IH Hu Ha]; intros i m Hi; [easy|].
  pose proof (paired_even l Hp) as Hev.
  destruct (decide (i < length l)) as [Hlt|Hge].
  - rewrite lookup_app_l in Hi by exact Hlt. apply IH, Hi.
  - rewrite lookup_app_r in Hi by lia.
    replace i with (length l + (i - length l)) by lia.
    destruct (i - length l) as [|[|k]]; [| |discriminate].
    + injection Hi as <-. rewrite Nat.add_0_r, Hev. exact Hu.
    + injection Hi as <-.
      replace (length l + 1) with (S (length l)) by lia.
      rewrite Nat.even_succ, <- Nat.negb_even, Hev. exact Ha.
Qed.

(** In every reachable state the transcript has an even number of turns;
    the turns at even positions are user turns and those at odd
    positions assistant turns.  A user turn has a text that is not empty
    and neither starts nor ends with white space, it never carries a
    loading flag or an error, and its card shows its text. *)
Theorem transcript_alternates {RT : Runtime}
    (acts : list Action) (s : State) :
  run acts init = Some s ->
  Nat.even (length (messages s)) = true
  /\ forall i m,
       messages s !! i = Some m ->
       if Nat.even i then
         ChatMessage.type m = user
         /\ ChatMessage.content m <> []
         /\ (forall c t, ChatMessage.content m = c :: t ->
                         isWhiteSpace c = false)
         /\ (forall l c, ChatMessage.content m = l ++ [c] ->
                         isWhiteSpace c = false)
         /\ ChatMessage.loading m = None
         /\ ChatMessage.error m = None
         /\ render m = Text (ChatMessage.content m)
       else ChatMessage.type m = assistant.
Proof.
  intros Hrun.
  destruct (reachable_invariant acts s Hrun) as (_ & _ & Hp & _).
  split; [apply paired_even, Hp|].
  intros i m Hi. pose proof (paired_lookup _ Hp i m Hi) as H.
  destruct (Nat.even i); [|exact H].
  destruct H as (Ht & Hne & Htrim & Hl & He).
  split; [exact Ht|]. split; [exact Hne|].
  split; [intros c t E; rewrite <- Htrim in E; eapply trim_first, E|].
  split; [intros l c E; rewrite <- Htrim in E; eapply trim_last, E|].
  split; [exact Hl|]. split; [exact He|].
  unfold render. now rewrite Hl, He.
Qed.

Lemma transcript_alternates_witness :
  run (RT := example_runtime) example_run init = Some example_streaming
  /\ Nat.even (length (messages example_streaming)) = true.
Proof.
  assert (Hrun : run (RT := example_runtime) example_run init
                 = Some example_streaming) by (vm_compute; reflexivity).
  split; [exact Hrun|].
  apply (transcript_alternates (RT := example_runtime) example_run
           example_streaming Hrun).
Defined.

(** ** Chunks accumulate in order *)

Section Accumulation.
Context {RT : Runtime}.




End Accumulation.



(** ** Closed channels stay closed *)

Section Monotone.
Context {RT : Runtime}.

Lemma step_closed_stays_closed a s s' h :
  only_current_open s -> step a s = Some s' ->
  h < length (heap s) -> is_open h s = false ->
  is_open h s' = false /\ length (heap s) <= length (heap s').
Proof.
  intros Hinv Hstep Hlt Hc.
  destruct (step_channels a s s' Hinv Hstep)
    as [(Ho & Hl & _)|[(Hall & Hl)|(Ho & Hl & _)]].
  - rewrite Ho, Hl. auto.
  - rewrite Hall, Hl. auto.
  - split; [|lia]. apply not_true_is_false. intros Hopen.
    apply Ho in Hopen. lia.
Qed.

Lemma run_closed_stays_closed acts s s' h :
  only_current_open s -> run acts s = Some s' ->
  h < length (heap s) -> is_open h s = false ->
  is_open h s' = false /\ length (heap s) <= length (heap s').
Proof.
  revert s. induction acts as [|a acts IH]; intros s Hinv; cbn [run].
  - intros [= <-]. auto.
  - destruct (step a s) as [s1|] eqn:E; [|discriminate].
    intros Hrun Hlt Hc.
    destruct (step_closed_stays_closed a s s1 h Hinv E Hlt Hc) as [Hc1 Hl1].
    destruct (IH s1 (step_only_current a s s1 Hinv E) Hrun) as [Hc' Hl'];
      [lia|exact Hc1|].
    split; [exact Hc'|lia].
Qed.

End Monotone.

(** Once a channel of a reachable state is closed, nothing the view does
    afterwards reopens it, and the [EventSource] objects constructed so
    far are never fewer. *)
Theorem closed_channel_never_reopens {RT : Runtime}
    (acts1 acts2 : list Action) (s1 s2 : State) (h : nat) :
  run acts1 init = Some s1 ->
  run acts2 s1 = Some s2 ->
  h < length (heap s1) ->
  is_open h s1 = false ->
  is_open h s2 = false /\ length (heap s1) <= length (heap s2).
Proof.
  intros Hrun1 Hrun2.
  apply (run_closed_stays_closed acts2 s1 s2 h); [|exact Hrun2].
  eapply run_only_current; [apply init_only_current|exact Hrun1].
Qed.

Lemma closed_channel_never_reopens_witness :
  exists s1 s2,
    run (RT := example_runtime) (example_run ++ [Clear]) init = Some s1
    /\ run (RT := example_runtime)
         [Input example_query; Send example_env] s1 = Some s2
    /\ is_open 0 s1 = false /\ is_open 0 s2 = false
    /\ is_open 1 s2 = true.
Proof.
  eexists (handleClear example_streaming), _.
  assert (H1 : run (RT := example_runtime) (example_run ++ [Clear]) init
               = Some (handleClear example_streaming))
    by (vm_compute; reflexivity).
  assert (H2 : run (RT := example_runtime)
                 [Input example_query; Send example_env]
                 (handleClear example_streaming)
               = Some (handleSend example_env
                         (set_query example_query
                            (handleClear example_streaming))))
    by reflexivity.
  assert (Hc : is_open 0 (handleClear example_streaming) = false)
    by (vm_compute; reflexivity).
  destruct (closed_channel_never_reopens (RT := example_runtime)
              _ _ _ _ 0 H1 H2) as [Hc2 _];
    [vm_compute; lia|exact Hc|].
  split; [exact H1|]. split; [exact H2|]. split; [exact Hc|].
  split; [exact Hc2|vm_compute; reflexivity].
Defined.

(** ** Teardown *)

(** Unmounting the view in any reachable state leaves no channel open
    and constructs none; the only calls are [close] on the handle held.
    The hook clears neither the handle nor the loading flag, and leaves
    the transcript as it is. *)
Theorem onUnmounted_closes_the_channel {RT : Runtime}
    (acts : list Action) (s : State) :
  run acts init = Some s ->
  let s' := onUnmounted s in
  (forall h, is_open h s' = false)
  /\ length (heap s') = length (heap s)
  /\ eventSource s' = eventSource s
  /\ loading s' = loading s
  /\ messages s' = messages s
  /\ effects s' =
     effects s ++ match eventSource s with
                  | Some h => [es_close h]
                  | None => []
                  end.
Proof.
  intros Hrun. cbv zeta. unfold onUnmounted.
  pose proof (run_only_current acts init s init_only_current Hrun) as Hinv.
  split; [apply closeCurrent_all_closed, Hinv|].
  split; [apply closeCurrent_length|].
  split; [apply closeCurrent_eventSource|].
  split; [apply closeCurrent_loading|].
  split; [apply closeCurrent_messages|apply closeCurrent_effects].
Qed.

Lemma onUnmounted_closes_the_channel_witness :
  run (RT := example_runtime) example_run init = Some example_streaming
  /\ is_open 0 example_streaming = true
  /\ is_open 0 (onUnmounted example_streaming) = false
  /\ loading (onUnmounted example_streaming) = true.
Proof.
  assert (Hrun : run (RT := example_runtime) example_run init
                 = Some example_streaming) by (vm_compute; reflexivity).
  destruct (onUnmounted_closes_the_channel (RT := example_runtime)
              example_run example_streaming Hrun) as (Hc & _ & _ & Hl & _).
  split; [exact Hrun|]. split; [vm_compute; reflexivity|].
  split; [apply Hc|]. rewrite Hl. vm_compute. reflexivity.
Defined.

(** ** A query that cannot be encoded *)

Section Wedge.
Context {RT : Runtime}.

Lemma loadConnections_frame res s :
  messages (loadConnections res s) = messages s
  /\ loading (loadConnections res s) = loading s
  /\ heap (loadConnections res s) = heap s
  /\ eventSource (loadConnections res s) = eventSource s.
Proof.
  unfold loadConnections. destruct res as [items|]; [|auto].
  cbn [connections set_connections].
  destruct (List.filter _ items); [auto|]. destruct (negb _); auto.
Qed.

Lemma step_while_wedged a s s' :
  keeps_transcript a ->
  loading s = true -> all_closed s ->
  step a s = Some s' ->
  loading s' = true /\ all_closed s' /\ messages s' = messages s.
Proof.
  intros Hk Hl Hc. destruct a as [text|env| |v|res|es event|es|];
    cbn [step keeps_transcript] in *; try contradiction.
  - intros [= <-]. auto.
  - intros [= <-].
    destruct (handleSend_outcome env s)
      as [(_ & Hh & _ & Hl' & Hm)|(_ & _ & Hl' & _)]; [|congruence].
    split; [congruence|]. split; [|exact Hm].
    intros h. rewrite (is_open_same_heap _ _ h Hh). apply Hc.
  - intros [= <-].
    destruct (loadConnections_frame res s) as (Hm & Hl' & Hh & _).
    split; [congruence|]. split; [|exact Hm].
    intros h. rewrite (is_open_same_heap _ _ h Hh). apply Hc.
  - now rewrite Hc.
  - now rewrite Hc.
  - intros [= <-]. unfold onUnmounted.
    split; [now rewrite closeCurrent_loading|].
    split; [|apply closeCurrent_messages].
    intros h. apply not_true_is_false. unfold closeCurrent.
    destruct (eventSource s) as [h0|]; [|now rewrite Hc].
    intros Ho. apply is_open_close in Ho as [Ho _]. now rewrite Hc in Ho.
Qed.

Lemma run_while_wedged acts s s' :
  Forall keeps_transcript acts ->
  loading s = true -> all_closed s ->
  run acts s = Some s' ->
  loading s' = true /\ all_closed s' /\ messages s' = messages s.
Proof.
  intros Hk. revert s. induction Hk as [|a acts Ha _ IH];
    intros s Hl Hc; cbn [run].
  - intros [= <-]. auto.
  - destruct (step a s) as [s1|] eqn:E; [|discriminate]. intros Hrun.
    destruct (step_while_wedged a s s1 Ha Hl Hc E) as (Hl1 & Hc1 & Hm1).
    destruct (IH s1 Hl1 Hc1 Hrun) as (Hl' & Hc' & Hm').
    split; [exact Hl'|]. split; [exact Hc'|congruence].
Qed.

End Wedge.

(** A send whose trimmed query [encodeURIComponent] rejects (a lone
    surrogate) ends by an exception after the two turns were pushed and
    the loading flag set, and before any [EventSource] is constructed.
    From a reachable state this leaves the view loading with no open
    channel, the input emptied and the placeholder pending; and whatever
    happens next, short of clearing the conversation or changing the
    connection, the view stays loading with the same transcript: no
    further send is accepted and no event can arrive to end it. *)
Theorem unencodable_query_wedges_the_view {RT : Runtime}
    (acts : list Action) (s : State) (env : SendEnv) :
  run acts init = Some s ->
  str_truthy (trim (query s)) = true ->
  id_truthy (selectedConnectionId s) = true ->
  loading s = false ->
  encodeURIComponent (trim (query s)) = None ->
  let s1 := handleSend env s in
  loading s1 = true
  /\ (forall h, is_open h s1 = false)
  /\ heap s1 = heap s
  /\ query s1 = []
  /\ messages s1 = messages s ++ [userMessage env s; aiMessage env]
  /\ effects s1 = effects s ++ [uncaught URI_ERROR]
  /\ forall acts' s2,
       Forall keeps_transcript acts' -> run acts' s1 = Some s2 ->
       loading s2 = true /\ messages s2 = messages s1
       /\ forall h, is_open h s2 = false.
Proof.
  intros Hrun Hq Hc Hl Henc. cbv zeta.
  destruct (run_invariant acts init s init_only_current init_streaming Hrun)
    as [_ Hs].
  pose proof (not_loading_all_closed s Hs Hl) as Hclosed.
  assert (E : handleSend env s
              = emit (uncaught URI_ERROR) (handleSend_enqueue env s)).
  { unfold handleSend. now rewrite Hq, Hc, Hl, Henc. }
  rewrite E.
  assert (Hc1 : all_closed (emit (uncaught URI_ERROR)
                              (handleSend_enqueue env s)))
    by exact Hclosed.
  split; [reflexivity|]. split; [exact Hc1|]. split; [reflexivity|].
  split; [reflexivity|].
  split; [apply handleSend_enqueue_messages|]. split; [reflexivity|].
  intros acts' s2 Hk Hrun'.
  destruct (run_while_wedged acts'
              (emit (uncaught URI_ERROR) (handleSend_enqueue env s)) s2
              Hk eq_refl Hc1 Hrun')
    as (Hl2 & Hc2 & Hm2).
  auto.
Qed.

Lemma unencodable_query_wedges_the_view_witness :
  let s := set_query [0xD800%N] (set_selectedConnectionId (Some 5%Z) init) in
  encodeURIComponent (trim (query s)) = None
  /\ loading (handleSend example_env s) = true
  /\ exists s2,
       run (RT := example_runtime)
         [Input example_query; Send example_env; Unmount]
         (handleSend example_env s) = Some s2
       /\ loading s2 = true /\ length (messages s2) = 2.
Proof.
  cbv zeta.
  assert (Hrun : run (RT := example_runtime)
                   [Select 5%Z; Input [0xD800%N]] init
                 = Some (set_query [0xD800%N]
                           (set_selectedConnectionId (Some 5%Z) init)))
    by reflexivity.
  destruct (unencodable_query_wedges_the_view (RT := example_runtime)
              _ _ example_env Hrun eq_refl eq_refl eq_refl eq_refl)
    as (Hl & _ & _ & _ & Hm & _ & Hlater).
  split; [reflexivity|]. split; [exact Hl|].
  assert (Hk : Forall keeps_transcript
                 [Input example_query; Send example_env; Unmount])
    by (repeat constructor).
  eexists. split; [vm_compute; reflexivity|].
  match goal with
  | |- loading ?s2 = true /\ _ =>
    assert (Hrun2 : run (RT := example_runtime)
                      [Input example_query; Send example_env; Unmount]
                      (handleSend example_env
                         (set_query [0xD800%N]
                            (set_selectedConnectionId (Some 5%Z) init)))
                    = Some s2) by (vm_compute; reflexivity);
    destruct (Hlater _ s2 Hk Hrun2) as (Hl2 & Hm2 & _)
  end.
  split; [exact Hl2|]. rewrite Hm2, Hm. reflexivity.
Defined.

(** ** A send whose EventSource cannot be constructed *)

Lemma closeCurrent_query s : query (closeCurrent s) = query s.
Proof. unfold closeCurrent. destruct (eventSource s); reflexivity. Qed.

(** When [handleSend] passes its guards and encodes the query but the
    [EventSource] constructor throws, the [catch] block leaves the view
    ready for the next send: the loading flag is cleared, the placeholder
    carries [loading = false] and the fixed error text, which its card
    shows, and the user is notified.  The channel held before has been
    closed and its handle is still held; no [EventSource] was added.  The
    text typed by the user is gone from the input. *)
Theorem constructor_failure_marks_placeholder
    (env : SendEnv) (s : State) (q : jsstring) :
  str_truthy (trim (query s)) = true ->
  id_truthy (selectedConnectionId s) = true ->
  loading s = false ->
  encodeURIComponent (trim (query s)) = Some q ->
  EventSource_ok env = false ->
  let s' := handleSend env s in
  let failed :=
    ChatMessage.mk (ai_id env) assistant [] (ai_ts env) (Some false)
      (Some MSG_SEND_FAILED) in
  messages s' = messages s ++ [userMessage env s; failed]
  /\ render failed = ErrorText MSG_SEND_FAILED
  /\ loading s' = false
  /\ query s' = []
  /\ eventSource s' = eventSource s
  /\ length (heap s') = length (heap s)
  /\ (forall h, eventSource s = Some h -> is_open h s' = false)
  /\ effects s' =
     effects s ++ match eventSource s with
                  | Some h => [es_close h]
                  | None => []
                  end ++ [console_error LOG_SEND_FAILED;
                          message_error MSG_SEND_FAILED].
Proof.
  intros Hq Hc Hl Henc Hok. cbv zeta.
  assert (E : handleSend env s
              = handleSend_connect env (sseUrl_of env s q)
                  (handleSend_enqueue env s)).
  { unfold handleSend. now rewrite Hq, Hc, Hl, Henc. }
  rewrite E.
  split.
  { erewrite handleSend_connect_messages
      with (l := messages s ++ [userMessage env s]) (m := aiMessage env);
      [|rewrite handleSend_enqueue_messages, <- app_assoc; reflexivity
       |reflexivity].
    rewrite Hok, <- app_assoc. reflexivity. }
  split; [vm_compute; reflexivity|].
  unfold handleSend_connect. rewrite Hok.
  split; [now rewrite withLastAiMessage_loading|].
  split.
  { unfold withLastAiMessage.
    destruct (lastMessage _) as [m|]; [|cbn; apply closeCurrent_query].
    destruct (is_assistant _); cbn; apply closeCurrent_query. }
  split; [rewrite withLastAiMessage_eventSource; cbn [eventSource emit
            set_loading]; now rewrite closeCurrent_eventSource|].
  split; [rewrite withLastAiMessage_heap; cbn [heap emit set_loading];
          now rewrite closeCurrent_length|].
  split.
  { intros h Hh. unfold is_open. rewrite withLastAiMessage_heap.
    cbn [heap emit set_loading]. unfold closeCurrent.
    cbn [eventSource handleSend_enqueue set_currentSessionId set_loading
         set_query push set_messages]. rewrite Hh.
    apply not_true_is_false. intros Ho.
    change (is_open h (close h (handleSend_enqueue env s)) = true) in Ho.
    apply is_open_close in Ho as [_ Hne]. now apply Hne. }
  rewrite withLastAiMessage_effects.
  cbn [effects emit set_loading]. rewrite closeCurrent_effects.
  rewrite <- !app_assoc. reflexivity.
Qed.

Lemma constructor_failure_marks_placeholder_witness :
  let env :=
    {| user_id := user_id example_env; user_ts := user_ts example_env;
       ai_id := ai_id example_env; ai_ts := ai_ts example_env;
       session_id := session_id example_env; VITE_API_URL := None;
       EventSource_ok := false |} in
  loading (handleSend env example_ready) = false
  /\ length (messages (handleSend env example_ready)) = 2
  /\ length (heap (handleSend env example_ready)) = 0.
Proof.
  cbv zeta.
  destruct (constructor_failure_marks_placeholder
              {| user_id := user_id example_env;
                 user_ts := user_ts example_env;
                 ai_id := ai_id example_env; ai_ts := ai_ts example_env;
                 session_id := session_id example_env;
                 VITE_API_URL := None; EventSource_ok := false |}
              example_ready
              (default [] (encodeURIComponent example_query)))
    as (Hm & _ & Hl & _ & _ & Hh & _);
    try (vm_compute; reflexivity).
  split; [exact Hl|]. split; [now rewrite Hm|now rewrite Hh].
Defined.

(** ** The address of the channel *)

(** The [EventSource] a successful send adds to the heap. *)
Lemma send_opens_addressed_channel_aux env s q :
  str_truthy (trim (query s)) = true ->
  id_truthy (selectedConnectionId s) = true ->
  loading s = false ->
  encodeURIComponent (trim (query s)) = Some q ->
  EventSource_ok env = true ->
  exists o,
    heap (handleSend env s) !! length (heap s) = Some o
    /\ closed o = false /\ url_query (url o) = q.
Proof.
  intros Hq Hc Hl Henc Hok.
  assert (E : handleSend env s
              = handleSend_connect env (sseUrl_of env s q)
                  (handleSend_enqueue env s)).
  { unfold handleSend. now rewrite Hq, Hc, Hl, Henc. }
  rewrite E. unfold handleSend_connect. rewrite Hok.
  cbn [heap set_eventSource newEventSource emit set_heap].
  eexists. split.
  { rewrite lookup_app_r by (rewrite closeCurrent_length; cbn; lia).
    rewrite closeCurrent_length.
    cbn [heap handleSend_enqueue set_currentSessionId set_loading
         set_query push set_messages].
    rewrite Nat.sub_diag. reflexivity. }
  split; reflexivity.
Qed.

(** A send that passes its guards, encodes the query and gets its
    [EventSource] leaves a new open channel, held in [eventSource], whose
    address is made of the base URL (the configured one, or
    [http://localhost:8000] when none or an empty one is configured), the
    percent-encoded trimmed query, the selected connection and the session
    id generated by this send, which is also stored as the current session
    id.  Its accumulated text starts empty, and the input is emptied. *)
Theorem send_opens_addressed_channel
    (env : SendEnv) (s : State) (q : jsstring) :
  str_truthy (trim (query s)) = true ->
  id_truthy (selectedConnectionId s) = true ->
  loading s = false ->
  encodeURIComponent (trim (query s)) = Some q ->
  EventSource_ok env = true ->
  let s' := handleSend env s in
  heap s' !! length (heap s) =
    Some {| url :=
              {| url_apiBase :=
                   match VITE_API_URL env with
                   | Some (c :: t) => c :: t
                   | _ => DEFAULT_API_BASE
                   end;
                 url_query := q;
                 url_connection_id := selectedConnectionId s;
                 url_session_id := session_id env |};
            closed := false;
            aiContent := [] |}
  /\ length (heap s') = S (length (heap s))
  /\ eventSource s' = Some (length (heap s))
  /\ currentSessionId s' = session_id env
  /\ selectedConnectionId s' = selectedConnectionId s
  /\ query s' = []
  /\ loading s' = true.
Proof.
  intros Hq Hc Hl Henc Hok. cbv zeta.
  assert (E : handleSend env s
              = handleSend_connect env (sseUrl_of env s q)
                  (handleSend_enqueue env s)).
  { unfold handleSend. now rewrite Hq, Hc, Hl, Henc. }
  rewrite E. unfold handleSend_connect. rewrite Hok.
  cbn [heap eventSource currentSessionId selectedConnectionId query loading
       set_eventSource newEventSource emit set_heap].
  rewrite closeCurrent_length.
  cbn [heap handleSend_enqueue set_currentSessionId set_loading
       set_query push set_messages].
  split.
  { rewrite lookup_app_r by (rewrite closeCurrent_length; cbn; lia).
    rewrite closeCurrent_length.
    cbn [heap handleSend_enqueue set_currentSessionId set_loading
         set_query push set_messages].
    rewrite Nat.sub_diag. cbn. unfold sseUrl_of, apiBase.
    destruct (VITE_API_URL env) as [[|c t]|]; reflexivity. }
  split; [rewrite length_app, closeCurrent_length; cbn; lia|].
  split; [reflexivity|].
  unfold closeCurrent.
  cbn [eventSource handleSend_enqueue set_currentSessionId set_loading
       set_query push set_messages].
  destruct (eventSource s); repeat split; reflexivity.
Qed.

Lemma send_opens_addressed_channel_witness :
  exists o,
    heap (handleSend example_env example_ready) !! 0 = Some o
    /\ url_apiBase (url o) = js "http://localhost:8000"
    /\ url_connection_id (url o) = Some 5%Z
    /\ url_query (url o) =
       js "%E6%9F%A5%E8%AF%A2%E9%94%80%E5%94%AE%E9%A2%9D%E6%9C%80%E9%AB%98%E7%9A%8410%E4%B8%AA%E4%BA%A7%E5%93%81".
Proof.
  destruct (send_opens_addressed_channel example_env example_ready
              (default [] (encodeURIComponent example_query)))
    as (Ho & _); try (vm_compute; reflexivity).
  eexists. split; [exact Ho|].
  split; [vm_compute; reflexivity|]. split; vm_compute; reflexivity.
Defined.

(** ** Payloads the handler cannot use *)

(** A payload that parses to [null], or whose [content] is truthy but
    cannot be coerced to a string, is treated like a malformed one: the
    handler logs and changes nothing else.  This holds for an event of
    type [final_result] too, which therefore does not end the session. *)
Theorem unusable_payload_is_dropped {RT : Runtime}
    (es : nat) (event : MessageEvent) (s : State) :
  JSON_parse (data event) = Some JNull
  \/ (exists d c,
        JSON_parse (data event) = Some d
        /\ Get d KEY_CONTENT = Some (Some c)
        /\ truthy (Some c) = true
        /\ js_add (aiContent_of es s) c = None) ->
  onmessage es event s = emit (console_error LOG_PARSE_FAILED) s.
Proof.
  intros [Hp|(d & c & Hp & Hg & Ht & Ha)];
    unfold onmessage, onmessage_try; rewrite Hp.
  - reflexivity.
  - rewrite Hg. unfold onmessage_content. rewrite Ht, Ha. reflexivity.
Qed.

Lemma unusable_payload_is_dropped_witness :
  let event := {| ev_type := FINAL_RESULT; data := js "null" |} in
  is_open 0 example_streaming = true
  /\ is_open 0 (onmessage (RT := example_runtime) 0 event example_streaming)
     = true
  /\ loading (onmessage (RT := example_runtime) 0 event example_streaming)
     = true.
Proof.
  cbv zeta.
  rewrite (unusable_payload_is_dropped (RT := example_runtime) 0
             {| ev_type := FINAL_RESULT; data := js "null" |}
             example_streaming (or_introl eq_refl)).
  repeat split; vm_compute; reflexivity.
Defined.

(** ** What the card of a failed answer shows *)

(** After a transport error in a reachable state with the channel open,
    the last turn still holds the text accumulated so far, but its card
    shows the error text instead of it. *)
Theorem transport_error_hides_partial_text {RT : Runtime}
    (acts : list Action) (s : State) (es : nat) :
  run acts init = Some s ->
  is_open es s = true ->
  exists m,
    lastMessage (onerror es s) = Some m
    /\ ChatMessage.content m = aiContent_of es s
    /\ render m = ErrorText MSG_CONNECT_FAILED.
Proof.
  intros Hrun Ho.
  destruct (reachable_invariant acts s Hrun) as (_ & Hs & _ & _ & Hsync).
  destruct (Hs es Ho) as (_ & m' & Hm' & Ht).
  destruct (Hsync es Ho) as (m & Hm & Hc).
  assert (m' = m) by congruence. subst m'.
  exists (set_msg_error MSG_CONNECT_FAILED (set_msg_loading false m)).
  split; [|split; [exact Hc|vm_compute; reflexivity]].
  destruct (lastMessage_split s m Hm) as [l Hl].
  unfold onerror, lastMessage. cbn [messages emit].
  erewrite withLastAiMessage_snoc; [|exact Hl|exact Ht].
  cbn [messages set_messages]. apply last_snoc.
Qed.

Lemma transport_error_hides_partial_text_witness :
  exists m,
    lastMessage (onerror 0 example_streaming) = Some m
    /\ ChatMessage.content m = js "销"
    /\ render m = ErrorText MSG_CONNECT_FAILED.
Proof.
  assert (Hrun : run (RT := example_runtime) example_run init
                 = Some example_streaming) by (vm_compute; reflexivity).
  assert (Ho : is_open 0 example_streaming = true)
    by (vm_compute; reflexivity).
  destruct (transport_error_hides_partial_text (RT := example_runtime)
              example_run example_streaming 0 Hrun Ho) as (m & Hm & Hc & Hr).
  exists m. split; [exact Hm|]. split; [|exact Hr].
  rewrite Hc. vm_compute. reflexivity.
Defined.

(** ** The registry after a successful fetch *)

Lemma loadConnections_connections items s :
  connections (loadConnections (Some items) s) = List.filter enabled items.
Proof.
  unfold loadConnections. cbn [connections set_connections].
  fold enabled. destruct (List.filter enabled items); [reflexivity|].
  destruct (negb _); reflexivity.
Qed.

Lemma filter_sublist {A} (f : A -> bool) (l : list A) :
  sublist (List.filter f l) l.
Proof.
  induction l as [|x l IH]; cbn [List.filter]; [constructor|].
  destruct (f x); now constructor.
Qed.

Lemma filter_none {A} (f : A -> bool) (l : list A) :
  (forall x, In x l -> f x = false) -> List.filter f l = [].
Proof.
  induction l as [|x l IH]; intros H; cbn [List.filter]; [reflexivity|].
  rewrite (H x (or_introl eq_refl)). apply IH. intros y Hy. apply H. now right.
Qed.

(** A fetch that succeeds replaces the registry by exactly the items of
    the response whose [status] is 1, in the order of the response,
    whatever the registry held before: the new registry is the response
    filtered by [enabled].  The select offers exactly one option per such
    item, in the same order, labelled with its name and type and valued
    with its id.  Nothing is notified, and transcript, channels and loading
    flag are untouched. *)
Theorem loadConnections_exposes_enabled
    (items : list ConnSourceDTO.t) (s : State) :
  let s' := loadConnections (Some items) s in
  connections s' = List.filter enabled items
  /\ connectionOptions s' =
     List.map
       (fun c => SelectOption.mk (optionLabel c) (ConnSourceDTO.id c))
       (List.filter enabled items)
  /\ (forall c, In c (connections s') <->
             In c items /\ ConnSourceDTO.status c = 1%Z)
  /\ sublist (connections s') items
  /\ (forall o, In o (connectionOptions s') <->
                exists c, In c items /\ ConnSourceDTO.status c = 1%Z
                          /\ o = SelectOption.mk (optionLabel c)
                                   (ConnSourceDTO.id c))
  /\ List.map SelectOption.value (connectionOptions s') =
     List.map ConnSourceDTO.id (connections s')
  /\ effects s' = effects s /\ messages s' = messages s
  /\ heap s' = heap s /\ eventSource s' = eventSource s
  /\ loading s' = loading s.
Proof.
  cbv zeta.
  assert (Hin : forall c, In c (List.filter enabled items) <->
                          In c items /\ ConnSourceDTO.status c = 1%Z).
  { intros c. rewrite List.filter_In. unfold enabled.
    now rewrite Z.eqb_eq. }
  split; [apply loadConnections_connections|].
  split; [unfold connectionOptions; now rewrite loadConnections_connections|].
  split; [intros c; rewrite loadConnections_connections; apply Hin|].
  split; [rewrite loadConnections_connections; apply filter_sublist|].
  split.
  { intros o. unfold connectionOptions.
    rewrite loadConnections_connections, List.in_map_iff. split.
    - intros (c & <- & Hc). apply Hin in Hc as [Hc Hst]. eauto.
    - intros (c & Hc & Hst & ->). exists c. split; [reflexivity|].
      apply Hin. auto. }
  split.
  { unfold connectionOptions. rewrite List.map_map. reflexivity. }
  destruct (loadConnections_frame (Some items) s) as (Hm & Hl & Hh & He).
  split; [|auto].
  unfold loadConnections. cbn [connections set_connections].
  destruct (List.filter _ items); [reflexivity|].
  destruct (negb _); reflexivity.
Qed.

(** The default selection made after a successful fetch: a selection
    already made is never replaced, even when the selected connection is
    no longer offered; without a selection ([null], or the id 0) the first
    enabled item of the response is selected; and when the response has no
    enabled item the selection stays as it was. *)
Theorem loadConnections_default_selection
    (items : list ConnSourceDTO.t) (s : State) :
  let s' := loadConnections (Some items) s in
  (id_truthy (selectedConnectionId s) = true ->
   selectedConnectionId s' = selectedConnectionId s)
  /\ ((forall c, In c items -> ConnSourceDTO.status c <> 1%Z) ->
      selectedConnectionId s' = selectedConnectionId s)
  /\ (id_truthy (selectedConnectionId s) = false ->
      forall pre c0 post,
        items = pre ++ c0 :: post ->
        (forall c, In c pre -> ConnSourceDTO.status c <> 1%Z) ->
        ConnSourceDTO.status c0 = 1%Z ->
        selectedConnectionId s' = Some (ConnSourceDTO.id c0)).
Proof.
  cbv zeta. unfold loadConnections.
  cbn [connections selectedConnectionId set_connections].
  fold enabled.
  assert (Hnone : forall l,
            (forall c, In c l -> ConnSourceDTO.status c <> 1%Z) ->
            List.filter enabled l = []).
  { intros l H. apply filter_none. intros c Hc. unfold enabled.
    apply Z.eqb_neq, H, Hc. }
  split; [|split].
  - intros Hsel. destruct (List.filter enabled items); [reflexivity|].
    now rewrite Hsel.
  - intros H. now rewrite (Hnone items H).
  - intros Hsel pre c0 post -> Hpre Hc0.
    rewrite List.filter_app, (Hnone pre Hpre). cbn [app List.filter].
    unfold enabled at 1. rewrite Hc0. cbn. now rewrite Hsel.
Qed.

(** ** The controls and the warnings *)

Lemma handleSend_accepted_length env s :
  str_truthy (trim (query s)) = true ->
  id_truthy (selectedConnectionId s) = true ->
  loading s = false ->
  length (messages (handleSend env s)) = length (messages s) + 2.
Proof.
  intros Hq Hc Hl.
  destruct (handleSend_outcome env s)
    as [([H|[H|H]] & _)|(_ & _ & _ & [[_ ->]|(q & _ & ->)])];
    try congruence.
  - cbn [messages emit]. rewrite handleSend_enqueue_messages, length_app.
    reflexivity.
  - erewrite handleSend_connect_messages
      with (l := messages s ++ [userMessage env s]) (m := aiMessage env);
      [|rewrite handleSend_enqueue_messages, <- app_assoc; reflexivity
       |reflexivity].
    rewrite !length_app. cbn. lia.
Qed.

Lemma emit_effects_neq e s : s <> emit e s.
Proof.
  intros H. apply (f_equal effects) in H. cbn in H.
  apply (f_equal (@length Effect)) in H. rewrite length_app in H.
  cbn in H. lia.
Qed.

(** The send button is disabled exactly in the states where [handleSend]
    would only warn; so a click on the enabled button never warns, and
    when no send is in progress it appends the two turns.  The warning
    about the missing connection is produced only in states where the
    input and the button are both disabled. *)
Theorem controls_match_the_guards (env : SendEnv) (s : State) :
  (sendDisabled s = true <->
   exists t, handleSend env s = emit (message_warning t) s)
  /\ (sendDisabled s = false -> loading s = false ->
      length (messages (handleSend env s)) = length (messages s) + 2)
  /\ (sendDisabled s = false -> loading s = true -> handleSend env s = s)
  /\ (handleSend env s = emit (message_warning MSG_NO_CONNECTION) s ->
      inputDisabled s = true /\ sendDisabled s = true).
Proof.
  unfold sendDisabled, inputDisabled.
  assert (Hwarn : forall t, handleSend env s = emit (message_warning t) s ->
            negb (str_truthy (trim (query s)))
            || negb (id_truthy (selectedConnectionId s)) = true).
  { intros t H.
    destruct (str_truthy (trim (query s))) eqn:Hq; [|reflexivity].
    destruct (id_truthy (selectedConnectionId s)) eqn:Hc; [|reflexivity].
    exfalso. destruct (loading s) eqn:Hl.
    - unfold handleSend in H. rewrite Hq, Hc, Hl in H. cbn [negb] in H.
      now apply emit_effects_neq in H.
    - pose proof (handleSend_accepted_length env s Hq Hc Hl) as Hlen.
      rewrite H in Hlen. cbn [messages emit] in Hlen. lia. }
  split; [|split; [|split]].
  - split; [|intros [t H]; eapply Hwarn, H].
    unfold handleSend.
    destruct (str_truthy (trim (query s))); cbn [negb orb]; [|eauto].
    destruct (id_truthy (selectedConnectionId s)); cbn [negb];
      [discriminate|eauto].
  - intros Hd Hl. apply orb_false_iff in Hd as [Hq Hc].
    apply negb_false_iff in Hq, Hc.
    now apply handleSend_accepted_length.
  - intros Hd Hl. apply orb_false_iff in Hd as [Hq Hc].
    apply negb_false_iff in Hq, Hc.
    unfold handleSend. now rewrite Hq, Hc, Hl.
  - intros H. pose proof (Hwarn _ H) as Hd. split; [|exact Hd].
    destruct (id_truthy (selectedConnectionId s)) eqn:Hc;
      [|now rewrite orb_true_r].
    exfalso. rewrite orb_false_r in Hd. apply negb_true_iff in Hd.
    unfold handleSend in H. rewrite Hd in H. cbn [negb] in H.
    apply (f_equal effects) in H. cbn [effects emit] in H.
    apply app_inv_head in H. vm_compute in H. discriminate.
Qed.

(** ** The encoded query *)

Lemma uriUnreserved_alnum c :
  (0x30 <= c <= 0x39 \/ 0x41 <= c <= 0x5A)%N -> uriUnreserved c = true.
Proof.
  intros H. unfold uriUnreserved.
  destruct H as [[H1 H2]|[H1 H2]].
  - apply N.leb_le in H1, H2. rewrite H1, H2. cbn.
    now rewrite !orb_true_r.
  - apply N.leb_le in H1, H2. now rewrite H1, H2.
Qed.

Lemma hexDigit_unreserved d : (d < 16)%N -> uriUnreserved (hexDigit d) = true.
Proof.
  intros H. apply uriUnreserved_alnum. unfold hexDigit.
  destruct (d <? 10)%N eqn:E.
  - apply N.ltb_lt in E. lia.
  - apply N.ltb_ge in E. lia.
Qed.

Lemma percent_safe b : (b < 256)%N -> Forall uriSafe (percent b).
Proof.
  intros H. unfold percent.
  assert (b / 16 < 16)%N by (apply N.Div0.div_lt_upper_bound; lia).
  assert (b mod 16 < 16)%N by (apply N.mod_lt; lia).
  constructor; [now right|].
  constructor; [left; now apply hexDigit_unreserved|].
  constructor; [left; now apply hexDigit_unreserved|constructor].
Qed.

Lemma utf8_of_code_point_bytes cp :
  (cp < 0x110000)%N -> Forall (fun b => (b < 256)%N) (utf8_of_code_point cp).
Proof.
  intros H. unfold utf8_of_code_point.
  assert (H6 : forall x, (x mod 0x40 < 0x40)%N)
    by (intros x; apply N.mod_lt; lia).
  destruct (cp <? 0x80)%N eqn:E1.
  { apply N.ltb_lt in E1. repeat constructor. lia. }
  destruct (cp <? 0x800)%N eqn:E2.
  { apply N.ltb_lt in E2.
    assert (cp / 0x40 < 0x20)%N by (apply N.Div0.div_lt_upper_bound; lia).
    pose proof (H6 cp). repeat constructor; lia. }
  destruct (cp <? 0x10000)%N eqn:E3.
  { apply N.ltb_lt in E3.
    assert (cp / 0x1000 < 0x10)%N by (apply N.Div0.div_lt_upper_bound; lia).
    pose proof (H6 cp). pose proof (H6 (cp / 0x40)%N).
    repeat constructor; lia. }
  assert (cp / 0x40000 < 0x5)%N by (apply N.Div0.div_lt_upper_bound; lia).
  pose proof (H6 cp). pose proof (H6 (cp / 0x40)%N).
  pose proof (H6 (cp / 0x1000)%N).
  repeat constructor; lia.
Qed.

Lemma escaped_safe cp :
  (cp < 0x110000)%N ->
  Forall uriSafe (concat (List.map percent (utf8_of_code_point cp))).
Proof.
  intros H. pose proof (utf8_of_code_point_bytes cp H) as Hb.
  induction Hb as [|b bs Hb _ IH]; cbn [List.map concat]; [constructor|].
  apply Forall_app. split; [now apply percent_safe|exact IH].
Qed.

Lemma encodeURIComponent_safe s :
  Forall (fun c => (c < 0x10000)%N) s ->
  forall out, encodeURIComponent s = Some out -> Forall uriSafe out.
Proof.
  remember (length s) as n eqn:Hn. revert s Hn.
  induction n as [n IH] using lt_wf_ind. intros s Hn Hs out.
  destruct s as [|c t]; cbn [encodeURIComponent].
  { intros [= <-]. constructor. }
  apply Forall_cons in Hs as [Hc Ht]. cbn [length] in Hn.
  destruct (uriUnreserved c) eqn:Hu.
  { destruct (encodeURIComponent t) as [r|] eqn:Er; [|discriminate].
    intros [= <-]. constructor; [now left|].
    apply (IH (length t)) with (s := t); [lia|reflexivity|exact Ht|exact Er]. }
  destruct (isTrailSurrogate c) eqn:Htr; [discriminate|].
  destruct (isLeadSurrogate c) eqn:Hld.
  - destruct t as [|c2 t2]; [discriminate|].
    destruct (isTrailSurrogate c2) eqn:Htr2; [|discriminate].
    apply Forall_cons in Ht as [Hc2 Ht2]. cbn [length] in Hn.
    destruct (encodeURIComponent t2) as [r|] eqn:Er; [|discriminate].
    intros [= <-]. apply Forall_app. split.
    + apply escaped_safe.
      unfold isLeadSurrogate, isTrailSurrogate in Hld, Htr2.
      apply andb_true_iff in Hld as [H1 H2], Htr2 as [H3 H4].
      apply N.leb_le in H1, H2, H3, H4. lia.
    + apply (IH (length t2)) with (s := t2);
        [lia|reflexivity|exact Ht2|exact Er].
  - destruct (encodeURIComponent t) as [r|] eqn:Er; [|discriminate].
    intros [= <-]. apply Forall_app. split.
    + apply escaped_safe. lia.
    + apply (IH (length t)) with (s := t); [lia|reflexivity|exact Ht|exact Er].
Qed.

Lemma trimStart_Forall (P : N -> Prop) s :
  Forall P s -> Forall P (trimStart s).
Proof.
  induction 1 as [|c t Hc Ht IH]; cbn [trimStart]; [constructor|].
  destruct (isWhiteSpace c); [exact IH|now constructor].
Qed.

Lemma rev_Forall (P : N -> Prop) s : Forall P s -> Forall P (rev s).
Proof.
  induction 1 as [|c t Hc Ht IH]; cbn [rev]; [constructor|].
  apply Forall_app. split; [exact IH|now repeat constructor].
Qed.

Lemma trim_Forall (P : N -> Prop) s : Forall P s -> Forall P (trim s).
Proof.
  intros H. unfold trim.
  now apply rev_Forall, trimStart_Forall, rev_Forall, trimStart_Forall.
Qed.

(** Whatever text the user sends, the query parameter of the address of
    the channel that [handleSend] opens consists of unreserved marks
    (letters, digits and [-_.!~*'()]) and percent signs only: it contains
    no [&], [=], [?], [#] or white space, so the text cannot add or alter
    a parameter of the request. *)
Theorem query_parameter_is_escaped (env : SendEnv) (s : State) :
  Forall (fun c => (c < 0x10000)%N) (query s) ->
  length (heap (handleSend env s)) <> length (heap s) ->
  exists o,
    heap (handleSend env s) !! length (heap s) = Some o
    /\ closed o = false
    /\ Forall uriSafe (url_query (url o)).
Proof.
  intros Hwf Hgrow.
  destruct (handleSend_outcome env s)
    as [(_ & Hh & _)|(Hq & Hc & Hl & [[_ E]|(q & Henc & E)])].
  - now rewrite Hh in Hgrow.
  - now rewrite E in Hgrow.
  - destruct (EventSource_ok env) eqn:Hok.
    + destruct (send_opens_addressed_channel_aux env s q Hq Hc Hl Henc Hok)
        as (o & Ho & Hcl & Hu).
      exists o. split; [exact Ho|]. split; [exact Hcl|]. rewrite Hu.
      eapply encodeURIComponent_safe; [|exact Henc]. now apply trim_Forall.
    + rewrite E, handleSend_connect_length, Hok in Hgrow.
      now cbn in Hgrow.
Qed.

Lemma code_units_check s :
  forallb (fun c => (c <? 0x10000)%N) s = true ->
  Forall (fun c => (c < 0x10000)%N) s.
Proof.
  induction s as [|c t IH]; cbn [forallb]; [constructor|].
  intros H. apply andb_true_iff in H as [Hc Ht].
  constructor; [now apply N.ltb_lt|now apply IH].
Qed.

Lemma query_parameter_is_escaped_witness :
  exists o,
    heap (handleSend example_env example_ready) !! 0 = Some o
    /\ Forall uriSafe (url_query (url o)).
Proof.
  destruct (query_parameter_is_escaped example_env example_ready)
    as (o & Ho & _ & Hs).
  - apply code_units_check. vm_compute. reflexivity.
  - vm_compute. discriminate.
  - exists o. split; [exact Ho|exact Hs].
Defined.

(** * Properties of the connector view *)

Section ConnectorRecords.
Context {SO : StringOps}.

(** The key under which [fetchList] stores a record. *)
Local Abbreviation key it := (String_of_number (ConnSourceDTO.id it)).

Lemma toRawMap_snoc l x :
  Connector.toRawMap (l ++ [x]) = <[key x := x]> (Connector.toRawMap l).
Proof. unfold Connector.toRawMap. now rewrite foldl_snoc. Qed.

Lemma toRawMap_lookup_Some l k raw :
  Connector.toRawMap l !! k = Some raw -> In raw l /\ key raw = k.
Proof.
  induction l as [|x l IH] using rev_ind.
  - unfold Connector.toRawMap. cbn. now rewrite lookup_empty.
  - rewrite toRawMap_snoc, lookup_insert. case_decide as Hk.
    + intros [= <-]. split; [apply in_or_app; right; now left|exact Hk].
    + intros H. apply IH in H as [Hin Hkey].
      split; [apply in_or_app; now left|exact Hkey].
Qed.

Lemma toRawMap_lookup_is_Some l it :
  In it l -> is_Some (Connector.toRawMap l !! key it).
Proof.
  induction l as [|x l IH] using rev_ind; [easy|].
  intros Hin. rewrite toRawMap_snoc, lookup_insert. case_decide as Hk.
  - eauto.
  - apply in_app_or in Hin as [Hin|[->|[]]]; [now apply IH|congruence].
Qed.

Lemma NoDup_map_inj {A B} (f : A -> B) (l : list A) a b :
  NoDup (List.map f l) -> In a l -> In b l -> f a = f b -> a = b.
Proof.
  induction l as [|x l IH]; [easy|]. cbn [List.map].
  intros Hnd. apply NoDup_cons in Hnd as [Hx Hnd].
  assert (Hnot : forall y, In y l -> f x <> f y).
  { intros y Hy E. apply Hx. rewrite E.
    apply list_elem_of_In, List.in_map, Hy. }
  intros [<-|Ha] [<-|Hb] E; auto.
  - now apply Hnot in E.
  - symmetry in E. now apply Hnot in E.
Qed.

Lemma toRawMap_lookup_distinct l it :
  NoDup (List.map (fun it => key it) l) -> In it l ->
  Connector.toRawMap l !! key it = Some it.
Proof.
  intros Hnd Hin.
  destruct (toRawMap_lookup_is_Some l it Hin) as [raw Hraw].
  rewrite Hraw. f_equal.
  apply toRawMap_lookup_Some in Hraw as [Hin' Hkey].
  now apply (NoDup_map_inj (fun it => key it) l).
Qed.

End ConnectorRecords.

(** After the list of connectors has been fetched there is one card per
    item of the response, and every card has a stored record: looking up
    the id of a card in [rawMap] gives an item of this response whose id
    prints as the id of the card.  [rawMap] holds nothing else, so records
    of an earlier response are gone.  When the ids of the response print
    differently from one another, the record stored for an item is that
    item itself.  A response without items leaves no card. *)
Theorem fetchList_keeps_a_record_per_card {SO : StringOps}
    (items : list ConnSourceDTO.t) (s : Connector.State) :
  let s' := Connector.fetchList (Some items) s in
  length (Connector.connectors s') = length items
  /\ (forall c, In c (Connector.connectors s') ->
        exists raw,
          Connector.rawMap s' !! Connector.ConnectorItem.id c = Some raw
          /\ In raw items
          /\ String_of_number (ConnSourceDTO.id raw)
             = Connector.ConnectorItem.id c)
  /\ (forall k raw,
        Connector.rawMap s' !! k = Some raw ->
        In raw items /\ String_of_number (ConnSourceDTO.id raw) = k)
  /\ (NoDup (List.map (fun it => String_of_number (ConnSourceDTO.id it))
               items) ->
      forall it, In it items ->
        Connector.rawMap s' !! String_of_number (ConnSourceDTO.id it)
        = Some it)
  /\ Connector.connectors (Connector.fetchList None s) = [].
Proof.
  cbv zeta. unfold Connector.fetchList.
  cbn [Connector.connectors Connector.rawMap].
  split; [apply List.length_map|].
  split.
  { intros c Hc. apply List.in_map_iff in Hc as (it & <- & Hit).
    cbn [Connector.toItem Connector.ConnectorItem.id].
    destruct (toRawMap_lookup_is_Some items it Hit) as [raw Hraw].
    exists raw. split; [exact Hraw|].
    now apply toRawMap_lookup_Some in Hraw. }
  split; [intros k raw; apply toRawMap_lookup_Some|].
  split; [|reflexivity].
  intros Hnd it Hit. now apply toRawMap_lookup_distinct.
Qed.

(** Opening for edition a card of the list just fetched (ids printing
    differently from one another) fills the form with the stored record
    of that card: name, type, host, port, account, database and status as
    the backend sent them, the description of the record or the empty
    string.  The password field is empty whatever the record holds.  The
    dialog is shown in edit mode, titled as an edition. *)
Theorem openEdit_shows_the_stored_record {SO : StringOps}
    (items : list ConnSourceDTO.t) (s : Connector.State)
    (it : ConnSourceDTO.t) :
  NoDup (List.map (fun it => String_of_number (ConnSourceDTO.id it))
           items) ->
  In it items ->
  let s1 := Connector.fetchList (Some items) s in
  let s2 := Connector.openEdit (Connector.toItem it) s1 in
  Connector.formModel s2 =
    Connector.FormModel.mk
      (String_of_number (ConnSourceDTO.id it))
      (ConnSourceDTO.name it) (ConnSourceDTO.conn_type it)
      (ConnSourceDTO.host it) (Some (ConnSourceDTO.port it))
      (ConnSourceDTO.username it) [] (ConnSourceDTO.db_name it)
      match ConnSourceDTO.description it with
      | Some d => d
      | None => []
      end
      (ConnSourceDTO.status it)
  /\ Connector.visible s2 = true
  /\ Connector.isCreate s2 = false
  /\ Connector.editMode s2 = true
  /\ Connector.headerTitle s2 = js "编辑数据源"
  /\ Connector.connectors s2 = Connector.connectors s1
  /\ Connector.rawMap s2 = Connector.rawMap s1.
Proof.
  intros Hnd Hin. cbv zeta.
  unfold Connector.openEdit, Connector.fetchList, Connector.headerTitle.
  cbn [Connector.formModel Connector.visible Connector.isCreate
       Connector.editMode Connector.connectors Connector.rawMap].
  split; [|repeat split].
  cbn [Connector.toItem Connector.ConnectorItem.id].
  rewrite (toRawMap_lookup_distinct items it Hnd Hin).
  unfold Connector.editForm, Connector.toItem.
  cbn [Connector.ConnectorItem.id Connector.ConnectorItem.description].
  destruct (ConnSourceDTO.description it); reflexivity.
Qed.

Lemma openEdit_shows_the_stored_record_witness :
  let items := [example_connection; example_other_connection] in
  let s2 :=
    Connector.openEdit
      (Connector.toItem (SO := example_strings) example_other_connection)
      (Connector.fetchList (SO := example_strings) (Some items)
         Connector.init) in
  Connector.FormModel.id (Connector.formModel s2) = js "7"
  /\ Connector.FormModel.host (Connector.formModel s2) = js "wh.internal"
  /\ Connector.FormModel.password_encrypted (Connector.formModel s2) = []
  /\ Connector.FormModel.status (Connector.formModel s2) = 0%Z.
Proof.
  cbv zeta.
  destruct (openEdit_shows_the_stored_record (SO := example_strings)
              [example_connection; example_other_connection]
              Connector.init example_other_connection)
    as (Hf & _).
  - apply (bool_decide_unpack _). vm_compute. exact I.
  - right. now left.
  - rewrite Hf. repeat split; vm_compute; reflexivity.
Defined.

(** ** The search form *)

Lemma filter_all {A} (f : A -> bool) (l : list A) :
  (forall x, In x l -> f x = true) -> List.filter f l = l.
Proof.
  induction l as [|x l IH]; intros H; cbn [List.filter]; [reflexivity|].
  rewrite (H x (or_introl eq_refl)). f_equal. apply IH.
  intros y Hy. apply H. now right.
Qed.

Lemma startsWith_refl s : startsWith s s = true.
Proof. induction s as [|c s IH]; cbn; [|rewrite N.eqb_refl]; auto. Qed.

Lemma includes_refl s : includes s s = true.
Proof. destruct s; cbn [includes]; now rewrite startsWith_refl. Qed.

(** The cards shown are cards of the list, in the order of the list.
    With a type chosen, only cards of exactly that type are shown; with
    no name typed and no type chosen, or right after a reset of the form,
    all cards are shown; and a card whose name equals the typed name up to
    letter case is shown when it passes the type filter. *)
Theorem search_form_filters_the_cards {SO : StringOps}
    (s : Connector.State) :
  sublist (Connector.filteredConnectors s) (Connector.connectors s)
  /\ Connector.filteredConnectors (Connector.onReset s)
     = Connector.connectors s
  /\ (Connector.query_name s = [] ->
      Connector.query_type s = None \/ Connector.query_type s = Some [] ->
      Connector.filteredConnectors s = Connector.connectors s)
  /\ (forall c t,
        Connector.query_type s = Some t -> t <> [] ->
        In c (Connector.filteredConnectors s) ->
        Connector.ConnectorItem.type c = t)
  /\ (forall c,
        In c (Connector.connectors s) ->
        toLowerCase (Connector.ConnectorItem.name c)
        = toLowerCase (Connector.query_name s) ->
        Connector.byType s c = true ->
        In c (Connector.filteredConnectors s)).
Proof.
  unfold Connector.filteredConnectors.
  split; [apply filter_sublist|].
  split; [now apply filter_all|].
  split.
  { intros Hn Ht. apply filter_all. intros c _.
    unfold Connector.byName, Connector.byType. rewrite Hn.
    destruct Ht as [->| ->]; reflexivity. }
  split.
  { intros c t Ht Hne Hc. apply List.filter_In in Hc as [_ Hc].
    apply andb_true_iff in Hc as [_ Hc].
    unfold Connector.byType in Hc. rewrite Ht in Hc.
    destruct t as [|x t]; [congruence|]. cbn [str_truthy] in Hc.
    now apply jsstring_eqb_eq in Hc. }
  intros c Hc Hname Htype. apply List.filter_In. split; [exact Hc|].
  rewrite Htype, andb_true_r. unfold Connector.byName.
  destruct (str_truthy _); [|reflexivity].
  rewrite Hname. apply includes_refl.
Qed.

(** * Finished turns are never touched again *)

Section FinishedTurns.
Context {RT : Runtime}.

Lemma onmessage_try_throws_early_content es d c s s1 :
  onmessage_content es d c s = Throw s1 -> s1 = s.
Proof.
  unfold onmessage_content.
  destruct c as [c|]; [|discriminate].
  destruct (truthy (Some c)); [|discriminate].
  destruct (js_add _ c); [discriminate|now intros [= <-]].
Qed.

Lemma onmessage_messages_length es event s :
  length (messages (onmessage es event s)) = length (messages s).
Proof.
  unfold onmessage, onmessage_try.
  destruct (JSON_parse (data event)) as [d|]; [|reflexivity].
  destruct (Get d KEY_CONTENT) as [c|]; [|reflexivity].
  unfold andThen.
  destruct (onmessage_content es d c s) as [s1|s1] eqn:E.
  - rewrite <- (onmessage_content_length es d c s s1 E).
    unfold onmessage_final. destruct (_ || _); [|reflexivity].
    rewrite withLastAiMessage_length. reflexivity.
  - apply onmessage_try_throws_early_content in E. now subst s1.
Qed.

Lemma onerror_messages_length es s :
  length (messages (onerror es s)) = length (messages s).
Proof.
  unfold onerror. cbn [messages emit].
  rewrite withLastAiMessage_length. reflexivity.
Qed.

(** An update of the last turn while a channel is open leaves every turn
    that is not pending where it is. *)
Lemma update_keeps_finished s s' i m :
  open_means_streaming s -> spinner_last_only s ->
  (exists h, is_open h s = true) ->
  length (messages s') = length (messages s) ->
  transcript_step s s' ->
  messages s !! i = Some m -> ~ pending m ->
  messages s' !! i = Some m.
Proof.
  intros Hs [_ Hlast] [h Ho] Hlen Hstep Hi Hnp.
  destruct (Hs h Ho) as (Hload & m0 & Hm0 & _).
  apply Hlast in Hload as (m1 & Hm1 & Hp1).
  assert (m1 = m0) by congruence. subst m1.
  destruct (lastMessage_split s m0 Hm0) as [l0 El0].
  destruct Hstep as [Hm _ _|Hm _ _|u a _ _ _ _ Hm _|l mo m' Hm Hm' _ _ _].
  - now rewrite Hm.
  - rewrite Hm, El0, length_app in Hlen. cbn in Hlen. lia.
  - rewrite Hm, length_app in Hlen. cbn in Hlen. lia.
  - rewrite El0 in Hm. apply app_inj_tail in Hm as [<- <-].
    rewrite El0 in Hi. rewrite Hm'.
    destruct (decide (i < length l0)) as [Hlt|Hge].
    + rewrite lookup_app_l in Hi |- * by exact Hlt. exact Hi.
    + rewrite lookup_app_r in Hi by lia.
      destruct (i - length l0) as [|k]; [|destruct k; discriminate].
      injection Hi as <-. contradiction.
Qed.

Lemma step_keeps_finished a s s' i m :
  only_current_open s -> open_means_streaming s -> spinner_last_only s ->
  keeps_transcript a ->
  step a s = Some s' ->
  messages s !! i = Some m -> ~ pending m ->
  messages s' !! i = Some m.
Proof.
  intros Hinv Hs Hsp Hk Hstep Hi Hnp.
  destruct a as [text|env| |v|res|es event|es|];
    cbn [step keeps_transcript] in *; try contradiction.
  - injection Hstep as <-. exact Hi.
  - injection Hstep as <-.
    destruct (handleSend_outcome env s)
      as [(_ & _ & _ & _ & Hm)|(Hq & Hc & Hl & _)]; [now rewrite Hm|].
    pose proof (handleSend_transcript env s Hinv) as Ht.
    pose proof (handleSend_accepted_length env s Hq Hc Hl) as Hlen.
    destruct Ht as [Hm _ _|Hm _ _|u a _ _ _ _ Hm _|l mo m' Hm Hm' _ _ _].
    + rewrite Hm in Hlen. lia.
    + rewrite Hm in Hlen. cbn in Hlen. lia.
    + rewrite Hm. apply lookup_app_l_Some, Hi.
    + rewrite Hm, Hm', !length_app in Hlen. cbn in Hlen. lia.
  - injection Hstep as <-.
    destruct (loadConnections_frame res s) as (Hm & _). now rewrite Hm.
  - destruct (is_open es s) eqn:Ho; [|discriminate]. injection Hstep as <-.
    eapply (update_keeps_finished s); eauto.
    + apply onmessage_messages_length.
    + now apply onmessage_transcript.
  - destruct (is_open es s) eqn:Ho; [|discriminate]. injection Hstep as <-.
    eapply (update_keeps_finished s); eauto.
    + apply onerror_messages_length.
    + now apply onerror_transcript.
  - injection Hstep as <-. unfold onUnmounted.
    now rewrite closeCurrent_messages.
Qed.

Lemma run_keeps_finished acts s s' i m :
  only_current_open s -> open_means_streaming s ->
  paired (messages s) -> spinner_last_only s -> text_in_sync s ->
  Forall keeps_transcript acts ->
  run acts s = Some s' ->
  messages s !! i = Some m -> ~ pending m ->
  messages s' !! i = Some m.
Proof.
  intros Hinv Hs Hp Hsp Hsync Hk. revert s Hinv Hs Hp Hsp Hsync.
  induction Hk as [|a acts Ha _ IH]; intros s Hinv Hs Hp Hsp Hsync;
    cbn [run].
  - now intros [= <-].
  - destruct (step a s) as [s1|] eqn:E; [|discriminate].
    intros Hrun Hi Hnp.
    destruct (run_view_invariant [a] s s1 Hinv Hs Hp Hsp Hsync)
      as (Hinv1 & Hs1 & Hp1 & Hsp1 & Hsync1);
      [cbn [run]; now rewrite E|].
    apply (IH s1 Hinv1 Hs1 Hp1 Hsp1 Hsync1 Hrun); [|exact Hnp].
    exact (step_keeps_finished a s s1 i m Hinv Hs Hsp Ha E Hi Hnp).
Qed.

End FinishedTurns.

(** In a reachable state, take a turn that is not pending: a question,
    or an answer that has completed or failed.  Whatever the view does
    next, short of clearing the conversation or changing the connection,
    that turn stays at its position exactly as it is. *)
Theorem finished_turns_are_never_modified {RT : Runtime}
    (acts acts' : list Action) (s s' : State) (i : nat)
    (m : ChatMessage.t) :
  run acts init = Some s ->
  Forall keeps_transcript acts' ->
  run acts' s = Some s' ->
  messages s !! i = Some m ->
  ChatMessage.loading m <> Some true ->
  messages s' !! i = Some m.
Proof.
  intros Hrun Hk Hrun' Hi Hnp.
  destruct (reachable_invariant acts s Hrun)
    as (Hinv & Hs & Hp & Hsp & Hsync).
  eapply run_keeps_finished; eauto.
Qed.

Lemma finished_turns_are_never_modified_witness :
  exists s' m,
    run (RT := example_runtime)
      [Message 0 {| ev_type := js "message"; data := payload_final |};
       Input example_query; Send example_env;
       Message 1 (example_chunk (js "售")); Error 1]
      example_streaming = Some s'
    /\ messages example_streaming !! 0 = Some m
    /\ messages s' !! 0 = Some m
    /\ length (messages s') = 4.
Proof.
  assert (Hrun : run (RT := example_runtime) example_run init
                 = Some example_streaming) by (vm_compute; reflexivity).
  eexists _, _. split; [vm_compute; reflexivity|].
  split; [vm_compute; reflexivity|].
  split; [|vm_compute; reflexivity].
  eapply (finished_turns_are_never_modified (RT := example_runtime)
            example_run
            [Message 0 {| ev_type := js "message"; data := payload_final |};
             Input example_query; Send example_env;
             Message 1 (example_chunk (js "售")); Error 1]
            example_streaming _ 0 _ Hrun).
  - repeat constructor.
  - vm_compute. reflexivity.
  - vm_compute. reflexivity.
  - vm_compute. discriminate.
Defined.
